(** * A terminal Pomodoro timer: layout engine and countdown driver

    Shallow embedding of the responsive, scaled version of the timer (the
    last program of [src/unnamed/part_001]), together with the tick handler
    of the older [src/index.js], and the properties of the written
    specification that concern them. The earlier versions of the program
    are embedded beside it: the drawing of the first program of
    [part_001] ([Unscaled]) and the one-line timer of [src/unnamed/part_000]
    ([Part000]); the last part of the file proves further properties of all
    four.

    Modelling conventions.
    - A JavaScript string is the list of its UTF-16 code units, so that
      [length] is [String.prototype.length]; the block characters of the
      glyph table are one code unit each.
    - Integers ([timeLeftInSeconds], terminal sizes, cell counts) are [Z]
      (the doubles of the program stay integral and far below 2^53).
      The only fractional number of the program, [progress], and the product
      [barWidth * progress] are exact rationals ([Q]): the IEEE rounding of
      the division and of the product is not modelled.
    - A computation that can throw returns [option] ([None] is the thrown
      [RangeError] or [TypeError]).
    - The handlers run in a small monad over the process state whose
      outcomes are normal return, uncaught exception and [process.exit].
      The event loop is a function from the process and one event (timeout,
      interval period, resize, SIGINT) to the next process; a process that
      has ended handles no event, and SIGINT without a listener takes the
      default action of the runtime, which kills the process. *)

From Stdlib Require Import ZArith QArith Qround Lia String Ascii Decimal.
From stdpp Require Import gmap list.

Open Scope Z_scope.

(** ** JavaScript strings *)

Abbreviation jsstring := (list N).

Module Js.

(** Code units of a source literal, which the file stores as UTF-8. *)
Fixpoint utf16 (bs : list N) : jsstring :=
  match bs with
  | [] => []
  | b :: rest =>
      if (b <? 128)%N then b :: utf16 rest
      else if (b <? 224)%N then
        match rest with
        | b2 :: rest' => ((b - 192) * 64 + (b2 - 128))%N :: utf16 rest'
        | [] => [b]
        end
      else
        match rest with
        | b2 :: b3 :: rest' =>
            ((b - 224) * 4096 + (b2 - 128) * 64 + (b3 - 128))%N :: utf16 rest'
        | _ => b :: utf16 rest
        end
  end.

Definition lit (s : string) : jsstring :=
  utf16 (N_of_ascii <$> list_ascii_of_string s).

(** [s.repeat(count)] for an integer [count]: a negative count throws
    [RangeError]. *)
Definition repeat (s : jsstring) (count : Z) : option jsstring :=
  if count <? 0 then None else Some (mjoin (replicate (Z.to_nat count) s)).

(** [parts.join(sep)]; an [undefined] element is joined as the empty
    string. *)
Fixpoint join (sep : jsstring) (parts : list (option jsstring)) : jsstring :=
  match parts with
  | [] => []
  | [p] => default [] p
  | p :: rest => default [] p ++ sep ++ join sep rest
  end.

(** [s.split('')]: one string per code unit. *)
Definition chars (s : jsstring) : list jsstring := (λ c, [c]) <$> s.

(** [s.split(sep)] for a one-unit separator. *)
Fixpoint split (sep : N) (s : jsstring) : list jsstring :=
  match s with
  | [] => [[]]
  | c :: rest =>
      if (c =? sep)%N then [] :: split sep rest
      else match split sep rest with
           | line :: lines => (c :: line) :: lines
           | [] => [[c]]
           end
  end.

(** [s.padStart(targetLength, pad)] for a one-unit [pad]. *)
Definition padStart (s : jsstring) (targetLength : nat) (pad : N) : jsstring :=
  replicate (targetLength - length s) pad ++ s.

Fixpoint digits (u : Decimal.uint) : jsstring :=
  match u with
  | Nil => []
  | D0 u => 48%N :: digits u | D1 u => 49%N :: digits u
  | D2 u => 50%N :: digits u | D3 u => 51%N :: digits u
  | D4 u => 52%N :: digits u | D5 u => 53%N :: digits u
  | D6 u => 54%N :: digits u | D7 u => 55%N :: digits u
  | D8 u => 56%N :: digits u | D9 u => 57%N :: digits u
  end.

(** [String(n)] for an integer [n]. *)
Definition String (n : Z) : jsstring :=
  match Z.to_int n with
  | Decimal.Pos u => digits u
  | Decimal.Neg u => 45%N :: digits u
  end.

(** [Math.round]: the nearest integer, halves towards +infinity. *)
Definition round (x : Q) : Z := Qfloor (x + (1 # 2)).

(** [a || b] on a number that may be [undefined]: [undefined] and [0] are
    falsy. *)
Definition or_else (a : option Z) (b : Z) : Z :=
  match a with
  | Some v => if v =? 0 then b else v
  | None => b
  end.

End Js.

Definition NL : jsstring := [10%N].
Definition ESC : jsstring := [27%N].
Definition BEL : jsstring := [7%N].

(** ** Layout engine *)

(** Base ASCII art for numbers (height 5, width 5). *)
Definition ASCII_NUMBERS : gmap N (list jsstring) :=
  list_to_map
    [ (48%N, Js.lit <$> [" ███ "; "█   █"; "█ █ █"; "█   █"; " ███ "]%string);
      (49%N, Js.lit <$> ["  █  "; " ██  "; "  █  "; "  █  "; " ███ "]%string);
      (50%N, Js.lit <$> [" ███ "; "█   █"; "   █ "; "  █  "; "█████"]%string);
      (51%N, Js.lit <$> ["████ "; "    █"; "  ██ "; "    █"; "████ "]%string);
      (52%N, Js.lit <$> ["█   █"; "█   █"; "█████"; "    █"; "    █"]%string);
      (53%N, Js.lit <$> ["█████"; "█    "; "████ "; "    █"; "████ "]%string);
      (54%N, Js.lit <$> [" ███ "; "█    "; "████ "; "█   █"; " ███ "]%string);
      (55%N, Js.lit <$> ["█████"; "    █"; "   █ "; "  █  "; "  █  "]%string);
      (56%N, Js.lit <$> [" ███ "; "█   █"; " ███ "; "█   █"; " ███ "]%string);
      (57%N, Js.lit <$> [" ███ "; "█   █"; " ████"; "    █"; " ███ "]%string);
      (58%N, Js.lit <$> ["     "; "  █  "; "     "; "  █  "; "     "]%string) ].

(** The argument of [centerContent] is a string or an array of strings. *)
Inductive content :=
  | Text (s : jsstring)
  | Lines (l : list jsstring).

Definition centerContent (c : content) (terminalWidth : Z) : option jsstring :=
  let lines := match c with Lines l => l | Text s => Js.split 10 s end in
  centered ← mapM (λ line,
      padding ← Js.repeat (Js.lit " ")
                  (Z.max 0 ((terminalWidth - Z.of_nat (length line)) / 2));
      Some (padding ++ line)) lines;
  Some (Js.join NL (Some <$> centered)).

Definition scaleAsciiCharacter (charArt : list jsstring) (scale : Z)
  : option (list jsstring) :=
  if scale <=? 1 then Some charArt
  else
    scaledRows ← mapM (λ row,
        cells ← mapM (λ char, Js.repeat char scale) (Js.chars row);
        Some (Js.join [] (Some <$> cells))) charArt;
    Some (scaledRows ≫= λ scaledRow, replicate (Z.to_nat scale) scaledRow).

(** [ASCII_NUMBERS[char] || ASCII_NUMBERS[':']] for a one-unit [char]. *)
Definition baseArt (char : jsstring) : list jsstring :=
  match char with
  | [c] => default (default [] (ASCII_NUMBERS !! 58%N)) (ASCII_NUMBERS !! c)
  | _ => default [] (ASCII_NUMBERS !! 58%N)
  end.

Definition generateScaledTimerRows (timeString : jsstring) (scale : Z)
  : option (list jsstring) :=
  scaledArtParts ← mapM (λ char, scaleAsciiCharacter (baseArt char) scale)
                     (Js.chars timeString);
  (* [scaledArtParts[0].length] throws TypeError on an empty array *)
  first ← head scaledArtParts;
  let scaledCharHeight := length first in
  scaledSpace ← Js.repeat (Js.lit " ") (scale * 2);
  Some ((λ i, Js.join scaledSpace ((λ part : list jsstring, part !! i) <$> scaledArtParts))
          <$> seq 0 scaledCharHeight).

(** The progress bar of [drawDisplay]. *)
Definition barMargin : Z := 4.

Definition barWidth (terminalWidth : Z) : Z :=
  Z.max 10 (terminalWidth - barMargin * 2 - 2).

Definition filledWidth (bw : Z) (progress : Q) : Z :=
  Js.round (inject_Z bw * progress).

Definition emptyWidth (bw fw : Z) : Z := bw - fw.

Definition barContent (terminalWidth : Z) (progress : Q) : option jsstring :=
  let bw := barWidth terminalWidth in
  let fw := filledWidth bw progress in
  let ew := emptyWidth bw fw in
  filledBar ← Js.repeat (Js.lit "█") fw;
  emptyBar ← Js.repeat (Js.lit "░") ew;
  Some (Js.lit "[" ++ filledBar ++ emptyBar ++ Js.lit "]").

(** The scale of the digits: 5 is the base height, 4 rows are for the bar
    and padding, 35 is the estimated base width. *)
Definition verticalScale (terminalHeight : Z) : Z := (terminalHeight - 4) / 5.
Definition horizontalScale (terminalWidth : Z) : Z := terminalWidth / 35.

Definition scale (terminalWidth terminalHeight : Z) : Z :=
  Z.max 1 (Z.min (verticalScale terminalHeight) (horizontalScale terminalWidth)).

Definition timeString (minutes seconds : Z) : jsstring :=
  Js.padStart (Js.String minutes) 2 48 ++ Js.lit ":"
    ++ Js.padStart (Js.String seconds) 2 48.

(** The text [drawDisplay] composes after it has cleared the screen. *)
Definition fullDisplay (terminalWidth terminalHeight : Z)
    (progress : Q) (minutes seconds : Z) : option jsstring :=
  bar ← barContent terminalWidth progress;
  centeredBar ← centerContent (Text bar) terminalWidth;
  timerRows ← generateScaledTimerRows (timeString minutes seconds)
                (scale terminalWidth terminalHeight);
  centeredTimer ← centerContent (Lines timerRows) terminalWidth;
  Some (centeredBar ++ NL ++ NL ++ centeredTimer).

(** ** The process and its event loop *)

Inductive exit_status :=
  | ExitCode (code : Z)        (* [process.exit(code)] *)
  | UncaughtException          (* a handler threw *)
  | KilledBySignal.            (* SIGINT with no listener: the default action *)

Record process := Process {
  (* the terminal behind [process.stdout] *)
  columns : option Z;
  rows : option Z;
  written : list jsstring;     (* the writes to stdout, oldest first *)
  (* what the event loop holds *)
  timeoutPending : bool;       (* the [setTimeout] of [main] *)
  timerInterval : bool;        (* the [setInterval] is active *)
  sigintListener : bool;       (* [process.on('SIGINT', ...)] *)
  resizeListener : bool;       (* [process.stdout.on('resize', redraw)] *)
  status : option exit_status; (* [None] while the process is alive *)
  (* the variables of [main] *)
  durationMinutes : Z;
  totalSeconds : Z;
  timeLeftInSeconds : Z;
  (* history variable: the arguments of every call of [drawDisplay] *)
  drawn : list (Q * Z * Z)
}.

Definition set_size (c r : Z) (p : process) : process :=
  let '(Process _ _ w tp ti sl rl st dm ts tl dr) := p in
  Process (Some c) (Some r) w tp ti sl rl st dm ts tl dr.

Definition push_written (s : jsstring) (p : process) : process :=
  let '(Process c r w tp ti sl rl st dm ts tl dr) := p in
  Process c r (w ++ [s]) tp ti sl rl st dm ts tl dr.

Definition set_timeoutPending (b : bool) (p : process) : process :=
  let '(Process c r w _ ti sl rl st dm ts tl dr) := p in
  Process c r w b ti sl rl st dm ts tl dr.

Definition set_timerInterval (b : bool) (p : process) : process :=
  let '(Process c r w tp _ sl rl st dm ts tl dr) := p in
  Process c r w tp b sl rl st dm ts tl dr.

Definition set_sigintListener (b : bool) (p : process) : process :=
  let '(Process c r w tp ti _ rl st dm ts tl dr) := p in
  Process c r w tp ti b rl st dm ts tl dr.

Definition set_resizeListener (b : bool) (p : process) : process :=
  let '(Process c r w tp ti sl _ st dm ts tl dr) := p in
  Process c r w tp ti sl b st dm ts tl dr.

Definition set_status (st : exit_status) (p : process) : process :=
  let '(Process c r w tp ti sl rl _ dm ts tl dr) := p in
  Process c r w tp ti sl rl (Some st) dm ts tl dr.

Definition set_duration (minutes : Z) (p : process) : process :=
  let '(Process c r w tp ti sl rl st _ _ _ dr) := p in
  Process c r w tp ti sl rl st minutes (minutes * 60) (minutes * 60) dr.

Definition set_timeLeft (t : Z) (p : process) : process :=
  let '(Process c r w tp ti sl rl st dm ts _ dr) := p in
  Process c r w tp ti sl rl st dm ts t dr.

Definition push_drawn (call : Q * Z * Z) (p : process) : process :=
  let '(Process c r w tp ti sl rl st dm ts tl dr) := p in
  Process c r w tp ti sl rl st dm ts tl (dr ++ [call]).

(** A handler returns, throws, or ends the process with [process.exit]. *)
Inductive outcome (A : Type) :=
  | Return (a : A)
  | Throw
  | Exit (code : Z).
Arguments Return {A} a.
Arguments Throw {A}.
Arguments Exit {A} code.

Definition io (A : Type) : Type := process → outcome A * process.

#[global] Instance io_ret : MRet io := λ A a p, (Return a, p).
#[global] Instance io_bind : MBind io := λ A B f m p,
  match m p with
  | (Return a, p') => f a p'
  | (Throw, p') => (Throw, p')
  | (Exit code, p') => (Exit code, p')
  end.

Definition get {A} (field : process → A) : io A := λ p, (Return (field p), p).
Definition modify (f : process → process) : io unit := λ p, (Return (), f p).
Definition lift {A} (x : option A) : io A := λ p,
  match x with Some a => (Return a, p) | None => (Throw, p) end.
Definition process_exit (code : Z) : io unit := λ p, (Exit code, p).

Definition stdout_write (s : jsstring) : io unit := modify (push_written s).
Definition console_log (s : jsstring) : io unit := stdout_write (s ++ NL).

(** The four callbacks a program hands to the event loop. *)
Record handlers := Handlers {
  timeout_callback : io unit;
  interval_callback : io unit;
  resize_callback : io unit;
  sigint_callback : io unit
}.

(** What the event loop does with the outcome of a callback. *)
Definition settle {A} (r : outcome A * process) : process :=
  match r with
  | (Return _, p) => p
  | (Throw, p) => set_status UncaughtException p
  | (Exit code, p) => set_status (ExitCode code) p
  end.

Inductive event :=
  | TimeoutFires                 (* the 1 s timer of [main] expires *)
  | IntervalFires                (* one period of the interval elapses *)
  | Resize (c r : Z)             (* the terminal takes a new size *)
  | SIGINT.                      (* Ctrl+C *)

(** One turn of the event loop. A process that has ended handles nothing;
    SIGINT without a listener takes the default action and kills it. *)
Definition deliver (h : handlers) (p : process) (ev : event) : process :=
  match status p with
  | Some _ => p
  | None =>
      match ev with
      | TimeoutFires =>
          if timeoutPending p
          then settle (timeout_callback h (set_timeoutPending false p)) else p
      | IntervalFires =>
          if timerInterval p then settle (interval_callback h p) else p
      | Resize c r =>
          let p' := set_size c r p in
          if resizeListener p' then settle (resize_callback h p') else p'
      | SIGINT =>
          if sigintListener p then settle (sigint_callback h p)
          else set_status KilledBySignal p
      end
  end.

Definition run (h : handlers) (p : process) (evs : list event) : process :=
  foldl (deliver h) p evs.

(** A fresh process on a terminal of the given size ([None]: not a TTY). *)
Definition boot (c r : option Z) : process :=
  Process c r [] false false false false None 0 0 0 [].

(** ** Countdown driver *)

Definition CLEAR_SCREEN : jsstring := ESC ++ Js.lit "[2J" ++ ESC ++ Js.lit "[0f".
Definition HIDE_CURSOR : jsstring := ESC ++ Js.lit "[?25l".
Definition SHOW_CURSOR : jsstring := ESC ++ Js.lit "[?25h".
Definition CANCELLED : jsstring :=
  NL ++ NL ++ Js.lit "Timer cancelled. Goodbye!" ++ NL.
Definition TIMES_UP : jsstring :=
  NL ++ NL ++ Js.lit "Time's up! Take a break." ++ BEL ++ NL.

Definition drawDisplay (progress : Q) (minutes seconds : Z) : io unit :=
  modify (push_drawn (progress, minutes, seconds));;
  c ← get columns;
  r ← get rows;
  let terminalWidth := Js.or_else c 80 in
  let terminalHeight := Js.or_else r 24 in
  stdout_write CLEAR_SCREEN;;
  text ← lift (fullDisplay terminalWidth terminalHeight progress minutes seconds);
  stdout_write text.

(** [progress] of [redraw], from the two counters. *)
Definition progress_of (total timeLeft : Z) : Q :=
  if 0 <? total then (inject_Z (total - timeLeft) / inject_Z total)%Q else 0%Q.

Definition redraw : io unit :=
  timeLeft ← get timeLeftInSeconds;
  total ← get totalSeconds;
  let minutes := timeLeft / 60 in
  let seconds := Z.rem timeLeft 60 in
  let progress := progress_of total timeLeft in
  drawDisplay progress minutes seconds.

Definition onSIGINT : io unit :=
  stdout_write SHOW_CURSOR;;
  stdout_write CANCELLED;;
  process_exit 0.

Definition onInterval : io unit :=
  timeLeft ← get timeLeftInSeconds;
  (if timeLeft <=? 0 then
     modify (set_timerInterval false);;
     modify (set_resizeListener false);;
     stdout_write SHOW_CURSOR;;
     stdout_write TIMES_UP;;
     process_exit 0
   else mret ());;
  modify (set_timeLeft (timeLeft - 1));;
  redraw.

Definition onTimeout : io unit :=
  stdout_write HIDE_CURSOR;;
  modify (set_sigintListener true);;
  modify (set_resizeListener true);;
  modify (set_timerInterval true);;
  redraw.

(** [main]: [args0] is [args[0]] ([None] when absent) and [parsed] the
    value of [parseInt(args[0], 10)] ([None] for [NaN]). *)
Definition main (args0 : option jsstring) (parsed : option Z) : io unit :=
  let invalid := match parsed with Some n => n <=? 0 | None => true end in
  (if invalid then
     match args0 with
     | Some raw =>
         console_log (Js.lit "Invalid duration: " ++ [34%N] ++ raw ++ [34%N]
                        ++ Js.lit ". Using default of 25 minutes.")
     | None => mret ()
     end
   else mret ());;
  let minutes := if invalid then 25 else default 25 parsed in
  modify (set_duration minutes);;
  console_log (Js.lit "Starting Pomodoro timer for " ++ Js.String minutes
                 ++ Js.lit " minutes. Press Ctrl+C to exit.");;
  modify (set_timeoutPending true).

Definition timer : handlers :=
  Handlers onTimeout onInterval redraw onSIGINT.

Definition launch (args0 : option jsstring) (parsed : option Z)
    (c r : option Z) : process :=
  settle (main args0 parsed (boot c r)).

(** ** The older program of [index.js]

    Fixed bar of 40 cells, unscaled digits, no resize listener; its
    interval callback decrements before it tests for the end. *)
Module IndexJs.

Definition charHeight : nat := length (default [] (ASCII_NUMBERS !! 48%N)).

(** The loop over the characters of [timeString]: a character without a
    glyph is skipped. *)
Definition timerRows (timeString : jsstring) : list jsstring :=
  foldl (λ rows char,
      match ASCII_NUMBERS !! char with
      | Some ascii_char =>
          imap (λ i row,
              row ++ default (Js.lit "undefined") (ascii_char !! i) ++ Js.lit " ")
            rows
      | None => rows
      end)
    (replicate charHeight []) timeString.

Definition drawDisplay (progress : Q) (minutes seconds : Z) : io unit :=
  modify (push_drawn (progress, minutes, seconds));;
  stdout_write CLEAR_SCREEN;;
  let bw := 40 in
  let fw := Js.round (inject_Z bw * progress) in
  let ew := bw - fw in
  filledBar ← lift (Js.repeat (Js.lit "█") fw);
  emptyBar ← lift (Js.repeat (Js.lit "░") ew);
  let progressBarString := Js.lit "[" ++ filledBar ++ emptyBar ++ Js.lit "]" ++ NL ++ NL in
  let largeTimerString := Js.join NL (Some <$> timerRows (timeString minutes seconds)) in
  stdout_write (progressBarString ++ largeTimerString).

Definition onInterval : io unit :=
  timeLeft ← get timeLeftInSeconds;
  modify (set_timeLeft (timeLeft - 1));;
  timeLeft ← get timeLeftInSeconds;
  total ← get totalSeconds;
  let minutes := timeLeft / 60 in
  let seconds := Z.rem timeLeft 60 in
  let progress := (inject_Z (total - timeLeft) / inject_Z total)%Q in
  drawDisplay progress minutes seconds;;
  if timeLeft <=? 0 then
    modify (set_timerInterval false);;
    stdout_write SHOW_CURSOR;;
    stdout_write TIMES_UP;;
    process_exit 0
  else mret ().

Definition onTimeout : io unit :=
  stdout_write HIDE_CURSOR;;
  modify (set_sigintListener true);;
  modify (set_timerInterval true);;
  minutes ← get durationMinutes;
  drawDisplay 0 minutes 0.

Definition timer : handlers :=
  Handlers onTimeout onInterval (mret ()) onSIGINT.

End IndexJs.

(** ** The first program of [part_001]: responsive, digits not scaled

    Its [main] and callbacks are those of the scaled program, text for
    text; only [drawDisplay] differs: it centres the bar and the digit rows
    itself and builds the rows like [index.js]. *)
Module Unscaled.

Definition fullDisplay (terminalWidth : Z) (progress : Q) (minutes seconds : Z)
  : option jsstring :=
  bar ← barContent terminalWidth progress;
  barPadding ← Js.repeat (Js.lit " ")
                 (Z.max 0 ((terminalWidth - Z.of_nat (length bar)) / 2));
  let progressBarString := barPadding ++ bar ++ NL ++ NL in
  let timerRows := IndexJs.timerRows (timeString minutes seconds) in
  (* [timerRows[0] ? timerRows[0].length : 0]: the empty string is falsy *)
  let timerContentWidth :=
    match timerRows !! 0%nat with
    | Some (c :: row) => Z.of_nat (length (c :: row))
    | _ => 0
    end in
  timerPadding ← Js.repeat (Js.lit " ")
                   (Z.max 0 ((terminalWidth - timerContentWidth) / 2));
  let centeredTimerRows := (λ row, timerPadding ++ row) <$> timerRows in
  let largeTimerString := Js.join NL (Some <$> centeredTimerRows) in
  Some (progressBarString ++ largeTimerString).

Definition drawDisplay (progress : Q) (minutes seconds : Z) : io unit :=
  modify (push_drawn (progress, minutes, seconds));;
  c ← get columns;
  let terminalWidth := Js.or_else c 80 in
  stdout_write CLEAR_SCREEN;;
  text ← lift (fullDisplay terminalWidth progress minutes seconds);
  stdout_write text.

End Unscaled.

(** ** The oldest program, [part_000]: one status line

    No grace delay and no cursor handling: [main] registers the SIGINT
    listener and the interval itself and draws at once. *)
Module Part000.

Definition TIMES_UP : jsstring :=
  NL ++ Js.lit "Time's up! Take a break." ++ BEL ++ NL.

Definition drawProgressBar (progress : Q) (minutes seconds : Z) : io unit :=
  modify (push_drawn (progress, minutes, seconds));;
  let bw := 40 in
  let fw := Js.round (inject_Z bw * progress) in
  let ew := bw - fw in
  filledBar ← lift (Js.repeat (Js.lit "█") fw);
  emptyBar ← lift (Js.repeat (Js.lit "░") ew);
  stdout_write ([13%N] ++ Js.lit "[" ++ filledBar ++ emptyBar ++ Js.lit "] "
                  ++ timeString minutes seconds ++ Js.lit " remaining ").

Definition onSIGINT : io unit :=
  stdout_write NL;;
  console_log (Js.lit "Timer cancelled. Goodbye!");;
  process_exit 0.

Definition onInterval : io unit :=
  timeLeft ← get timeLeftInSeconds;
  modify (set_timeLeft (timeLeft - 1));;
  timeLeft ← get timeLeftInSeconds;
  total ← get totalSeconds;
  let minutes := timeLeft / 60 in
  let seconds := Z.rem timeLeft 60 in
  let progress := (inject_Z (total - timeLeft) / inject_Z total)%Q in
  drawProgressBar progress minutes seconds;;
  if timeLeft <=? 0 then
    modify (set_timerInterval false);;
    stdout_write TIMES_UP;;
    process_exit 0
  else mret ().

Definition main (args0 : option jsstring) (parsed : option Z) : io unit :=
  let invalid := match parsed with Some n => n <=? 0 | None => true end in
  (if invalid then
     match args0 with
     | Some raw =>
         console_log (Js.lit "Invalid duration: " ++ [34%N] ++ raw ++ [34%N]
                        ++ Js.lit ". Using default of 25 minutes.")
     | None => mret ()
     end
   else mret ());;
  let minutes := if invalid then 25 else default 25 parsed in
  modify (set_duration minutes);;
  console_log (Js.lit "Starting Pomodoro timer for " ++ Js.String minutes
                 ++ Js.lit " minutes. Press Ctrl+C to exit.");;
  modify (set_sigintListener true);;
  modify (set_timerInterval true);;
  drawProgressBar 0 minutes 0.

(** There is no timeout and no resize listener. *)
Definition timer : handlers :=
  Handlers (mret ()) onInterval (mret ()) onSIGINT.

Definition launch (args0 : option jsstring) (parsed : option Z)
    (c r : option Z) : process :=
  settle (main args0 parsed (boot c r)).

End Part000.

(** The scale factor as the specification words it. *)
Definition spec_scale (viewport_columns viewport_rows : Z) : Z :=
  Z.max 1 (Z.min ((viewport_rows - 4) / 5) (viewport_columns / 35)).

(** ** Vocabulary of the properties *)

(** Every element repeated [n] times in place. *)
Definition stretch {A} (n : nat) (row : list A) : list A := row ≫= replicate n.

(** What [scaleAsciiCharacter] builds, as a total function: every row
    stretched, then every stretched row repeated. *)
Definition scaled (n : nat) (charArt : list jsstring) : list jsstring :=
  stretch n (stretch n <$> charArt).

(** The code unit in row [i], column [j] of a block. *)
Definition cell (block : list jsstring) (i j : nat) : option N :=
  block !! i ≫= λ row, row !! j.

(** The shape of a glyph: 5 rows of 5 cells. *)
Definition five_by_five (charArt : list jsstring) : Prop :=
  length charArt = 5%nat ∧ Forall (λ row, length row = 5%nat) charArt.

(** The scaled glyph of each code unit of the time string. *)
Definition blocks (timeString : jsstring) (n : nat) : list (list jsstring) :=
  (λ c, scaled n (baseArt [c])) <$> timeString.

(** A code unit without a glyph takes the glyph of the colon. *)
Definition substitute (c : N) : N :=
  match ASCII_NUMBERS !! c with Some _ => c | None => 58%N end.

(** The arguments [redraw] passes to [drawDisplay], and the frame it then
    writes. *)
Definition call_of (p : process) : Q * Z * Z :=
  (progress_of (totalSeconds p) (timeLeftInSeconds p),
   timeLeftInSeconds p / 60, Z.rem (timeLeftInSeconds p) 60).

Definition frame_of (p : process) : option jsstring :=
  fullDisplay (Js.or_else (columns p) 80) (Js.or_else (rows p) 24)
    (progress_of (totalSeconds p) (timeLeftInSeconds p))
    (timeLeftInSeconds p / 60) (Z.rem (timeLeftInSeconds p) 60).

(** The process after a call of [redraw] that wrote [frame]. *)
Definition drew (frame : jsstring) (p : process) : process :=
  push_written frame (push_written CLEAR_SCREEN (push_drawn (call_of p) p)).

(** The invariant of the two counters. *)
Definition counters_ok (p : process) : Prop :=
  0 < totalSeconds p ∧ 0 ≤ timeLeftInSeconds p ≤ totalSeconds p.

(** The state the timeout callback sets up: interval and listeners
    registered, process alive. *)
Definition running (p : process) : Prop :=
  status p = None ∧ timeoutPending p = false ∧ timerInterval p = true
  ∧ sigintListener p = true ∧ resizeListener p = true.

(** The state [main] leaves behind: nothing registered but the timeout. *)
Definition starting (p : process) : Prop :=
  status p = None ∧ timeoutPending p = true ∧ timerInterval p = false
  ∧ sigintListener p = false ∧ resizeListener p = false
  ∧ 0 < totalSeconds p ∧ timeLeftInSeconds p = totalSeconds p.

(** The timeout has not fired yet. *)
Definition pending (p : process) : Prop :=
  timeoutPending p = true ∧ timerInterval p = false
  ∧ sigintListener p = false ∧ resizeListener p = false
  ∧ timeLeftInSeconds p = totalSeconds p.

(** While it lives, the process waits for the timeout or is running. *)
Definition shape (p : process) : Prop :=
  counters_ok p ∧ (status p = None → pending p ∨ running p).

(** The process after the timeout and [k] periods of the interval. *)
Definition ticks (h : handlers) (p : process) (k : nat) : process :=
  run h p (TimeoutFires :: replicate k IntervalFires).



(** A one-minute timer on an 80 x 24 terminal. *)
Definition one_minute : process :=
  launch (Some (Js.lit "1")) (Some 1) (Some 80) (Some 24).

(** The Completed transition fires on the [k]-th period of the interval. *)
Definition completes_at (h : handlers) (p : process) (k : nat) : Prop :=
  status (ticks h p (k - 1)) = None
  ∧ status (ticks h p k) = Some (ExitCode 0)
  ∧ last (written (ticks h p k)) = Some TIMES_UP.



(** The number of spaces [centerContent] puts before a line, and the line
    with them. *)
Definition left_padding (terminalWidth : Z) (line : jsstring) : nat :=
  Z.to_nat (Z.max 0 ((terminalWidth - Z.of_nat (length line)) / 2)).

Definition pad_line (terminalWidth : Z) (line : jsstring) : jsstring :=
  replicate (left_padding terminalWidth line) 32%N ++ line.

(** The code unit has an entry in [ASCII_NUMBERS]. *)
Definition has_glyph (c : N) : Prop := is_Some (ASCII_NUMBERS !! c).



(** The last two writes are a clear-screen and the frame of the present
    counters and terminal size. *)
Definition display_current (p : process) : Prop :=
  ∃ before frame,
    frame_of p = Some frame ∧ written p = before ++ [CLEAR_SCREEN; frame].

(** How a process that started with the writes [w0] may have ended. *)
Definition ended_well (w0 : list jsstring) (p : process) : Prop :=
  match status p with
  | None => True
  | Some (ExitCode code) =>
      code = 0
      ∧ ∃ before,
          written p = before ++ [SHOW_CURSOR; CANCELLED]
          ∨ (written p = before ++ [SHOW_CURSOR; TIMES_UP]
             ∧ timeLeftInSeconds p = 0)
  | Some KilledBySignal => written p = w0 ∧ drawn p = []
  | Some UncaughtException => False
  end.

(** Alive with the interval active and the counter between 1 and
    [totalSeconds]: the state of the two older programs between ticks. *)
Definition ticking (p : process) : Prop :=
  status p = None ∧ timerInterval p = true ∧ sigintListener p = true
  ∧ timeoutPending p = false ∧ resizeListener p = false
  ∧ 1 ≤ timeLeftInSeconds p ≤ totalSeconds p.

(** The arguments the older interval callbacks pass to their draw function
    once the counter stands at [timeLeft]. *)
Definition older_call (total timeLeft : Z) : Q * Z * Z :=
  ((inject_Z (total - timeLeft) / inject_Z total)%Q,
   timeLeft / 60, Z.rem timeLeft 60).


Definition status_line (progress : Q) (minutes seconds : Z) : jsstring :=
  [13%N; 91%N] ++ replicate (Z.to_nat (Js.round (40 * progress))) 9608%N
    ++ replicate (Z.to_nat (40 - Js.round (40 * progress))) 9617%N
    ++ [93%N; 32%N] ++ timeString minutes seconds ++ Js.lit " remaining ".

Arguments fullDisplay : simpl never.
Arguments CLEAR_SCREEN : simpl never.
Arguments HIDE_CURSOR : simpl never.
Arguments SHOW_CURSOR : simpl never.
Arguments CANCELLED : simpl never.
Arguments TIMES_UP : simpl never.
Arguments progress_of : simpl never.
Arguments Z.div : simpl never.
Arguments Z.rem : simpl never.
Arguments Z.mul : simpl never.
Arguments Z.sub : simpl never.
Arguments redraw : simpl never.
Arguments Js.lit : simpl never.
Arguments Js.String : simpl never.
Arguments Js.repeat : simpl never.
Arguments Js.round : simpl never.
Arguments timeString : simpl never.
Arguments IndexJs.timerRows : simpl never.
Arguments IndexJs.drawDisplay : simpl never.
Arguments Part000.drawProgressBar : simpl never.

(** Runs the monadic plumbing of a callback on an explicit process. *)
Ltac io_eval :=
  unfold mbind, mret, io_bind, io_ret, get, modify, stdout_write, console_log,
    lift, process_exit;
  cbn.

(** * Properties *)

(** ** Strings *)

Lemma repeat_unit (c : N) (n : Z) :
  0 ≤ n → Js.repeat [c] n = Some (replicate (Z.to_nat n) c).
Proof.
  intros Hn. unfold Js.repeat.
  destruct (Z.ltb_spec n 0) as [?|_]; [lia|]. f_equal.
  induction (Z.to_nat n) as [|k IH]; simpl; [done|]. by rewrite IH.
Qed.

Lemma repeat_is_Some (s : jsstring) (n : Z) : 0 ≤ n → is_Some (Js.repeat s n).
Proof.
  intros Hn. unfold Js.repeat. destruct (Z.ltb_spec n 0); [lia|]. by eexists.
Qed.

Lemma repeat_negative (s : jsstring) (n : Z) : n < 0 → Js.repeat s n = None.
Proof. intros Hn. unfold Js.repeat. destruct (Z.ltb_spec n 0); [done|lia]. Qed.

(** ** Rounding *)

Lemma round_half (n : Z) : Js.round (inject_Z n) = n.
Proof.
  unfold Js.round.
  pose proof (Qfloor_le (inject_Z n + (1 # 2))) as Hle.
  pose proof (Qlt_floor (inject_Z n + (1 # 2))) as Hlt.
  set (k := Qfloor (inject_Z n + (1 # 2))) in *.
  assert (Hup : (inject_Z k < inject_Z (n + 1))%Q).
  { eapply Qle_lt_trans; [exact Hle|].
    rewrite inject_Z_plus. apply Qplus_lt_r. reflexivity. }
  assert (Hlo : (inject_Z n < inject_Z (k + 1))%Q).
  { eapply Qle_lt_trans; [|exact Hlt].
    rewrite <- (Qplus_0_r (inject_Z n)) at 1. apply Qplus_le_r. discriminate. }
  rewrite <- Zlt_Qlt in Hup, Hlo. lia.
Qed.

Lemma round_mono (x y : Q) : (x <= y)%Q → Js.round x ≤ Js.round y.
Proof. intros H. apply Qfloor_resp_le. by apply Qplus_le_l. Qed.

#[global] Instance round_proper : Proper (Qeq ==> eq) Js.round.
Proof. intros x y H. unfold Js.round. by rewrite H. Qed.

Lemma filledWidth_bounds (bw : Z) (progress : Q) :
  0 ≤ bw → (0 <= progress)%Q → (progress <= 1)%Q →
  0 ≤ filledWidth bw progress ≤ bw.
Proof.
  intros Hbw H0 H1. unfold filledWidth.
  assert (Hb : (0 <= inject_Z bw)%Q) by (rewrite (Zle_Qle 0 bw) in Hbw; exact Hbw).
  split.
  - rewrite <- (round_half 0). apply round_mono.
    apply Qmult_le_0_compat; assumption.
  - rewrite <- (round_half bw) at 2. apply round_mono.
    rewrite <- (Qmult_1_r (inject_Z bw)) at 2.
    rewrite !(Qmult_comm (inject_Z bw)).
    apply Qmult_le_compat_r; assumption.
Qed.

Lemma barWidth_min (terminalWidth : Z) : 10 ≤ barWidth terminalWidth.
Proof. unfold barWidth. lia. Qed.

(** ** Scaled glyphs *)

Lemma mapM_total {A B} (f : A → option B) (g : A → B) (l : list A) :
  (∀ x, x ∈ l → f x = Some (g x)) → mapM f l = Some (g <$> l).
Proof.
  intros H. apply mapM_Some_2.
  induction l as [|x l IH]; constructor.
  - apply H. by left.
  - apply IH. intros y Hy. apply H. by right.
Qed.

Lemma join_empty_sep (l : list jsstring) : Js.join [] (Some <$> l) = mjoin l.
Proof.
  induction l as [|x [|y l] IH]; simpl in *; [done|by rewrite app_nil_r|].
  by rewrite IH.
Qed.

Lemma stretch_1 {A} (l : list A) : stretch 1 l = l.
Proof.
  unfold stretch. induction l as [|x l IH]; [done|].
  rewrite bind_cons, IH. done.
Qed.

Lemma length_stretch {A} (n : nat) (l : list A) :
  length (stretch n l) = (n * length l)%nat.
Proof.
  unfold stretch. induction l as [|x l IH]; [simpl; lia|].
  rewrite bind_cons, length_app, length_replicate, IH. simpl. lia.
Qed.

Lemma lookup_stretch {A} (n : nat) (l : list A) (i : nat) :
  (0 < n)%nat → stretch n l !! i = l !! (i / n)%nat.
Proof.
  intros Hn. unfold stretch. revert i.
  induction l as [|x l IH]; intros i; [done|].
  rewrite bind_cons.
  destruct (decide (i < n)%nat) as [Hi|Hi].
  - rewrite lookup_app_l by (rewrite length_replicate; lia).
    rewrite Nat.div_small by lia. by apply lookup_replicate_2.
  - rewrite lookup_app_r by (rewrite length_replicate; lia).
    rewrite length_replicate, IH.
    replace i with ((i - n) + 1 * n)%nat at 2 by lia.
    rewrite Nat.div_add by lia. by rewrite Nat.add_1_r.
Qed.

Lemma elem_of_stretch {A} (n : nat) (l : list A) (x : A) :
  x ∈ stretch n l → x ∈ l.
Proof.
  unfold stretch. intros (y & Hx & Hy)%list_elem_of_bind.
  apply elem_of_replicate in Hx as [-> _]. done.
Qed.

Lemma stretch_row (row : jsstring) (s : Z) :
  1 ≤ s →
  (cells ← mapM (λ char, Js.repeat char s) (Js.chars row);
   Some (Js.join [] (Some <$> cells))) = Some (stretch (Z.to_nat s) row).
Proof.
  intros Hs. unfold Js.chars.
  rewrite (mapM_total _ (λ char, stretch (Z.to_nat s) char)); simpl.
  - f_equal. rewrite join_empty_sep.
    induction row as [|c row IH]; [done|].
    rewrite !fmap_cons. change (mjoin (?x :: ?l)) with (x ++ mjoin l).
    rewrite IH. unfold stretch. rewrite (bind_cons _ c row).
    f_equal. apply app_nil_r.
  - intros char (c & -> & _)%list_elem_of_fmap.
    rewrite repeat_unit by lia. unfold stretch. simpl. by rewrite app_nil_r.
Qed.

Lemma scaleAsciiCharacter_scaled (charArt : list jsstring) (s : Z) :
  1 ≤ s → scaleAsciiCharacter charArt s = Some (scaled (Z.to_nat s) charArt).
Proof.
  intros Hs. unfold scaleAsciiCharacter, scaled.
  destruct (Z.leb_spec s 1) as [Hle|Hgt].
  - replace (Z.to_nat s) with 1%nat by lia. f_equal.
    rewrite stretch_1. induction charArt as [|r l IH]; [done|].
    by rewrite fmap_cons, stretch_1, <- IH.
  - rewrite (mapM_total _ (stretch (Z.to_nat s))); [done|].
    intros row _. by apply stretch_row.
Qed.

Lemma scaleAsciiCharacter_small (charArt : list jsstring) (s : Z) :
  s ≤ 1 → scaleAsciiCharacter charArt s = Some charArt.
Proof. intros Hs. unfold scaleAsciiCharacter. by destruct (Z.leb_spec s 1); [|lia]. Qed.

Lemma ASCII_NUMBERS_shape (c : N) (charArt : list jsstring) :
  ASCII_NUMBERS !! c = Some charArt → five_by_five charArt.
Proof.
  intros H. apply elem_of_list_to_map_2 in H.
  repeat (apply elem_of_cons in H as [H|H];
          [injection H as _ ->; split; [reflexivity|repeat constructor]|]).
  by apply elem_of_nil in H.
Qed.

Lemma baseArt_shape (char : jsstring) : five_by_five (baseArt char).
Proof.
  assert (Hcolon : ∃ a, ASCII_NUMBERS !! 58%N = Some a) by (by eexists).
  destruct Hcolon as [colon Hcolon].
  unfold baseArt. rewrite Hcolon. simpl.
  destruct char as [|c [|? ?]]; try by eapply ASCII_NUMBERS_shape.
  destruct (ASCII_NUMBERS !! c) as [a|] eqn:Ha; simpl;
    by eapply ASCII_NUMBERS_shape.
Qed.

Lemma scaled_shape (n : nat) (charArt : list jsstring) :
  five_by_five charArt →
  length (scaled n charArt) = (5 * n)%nat
  ∧ Forall (λ row, length row = (5 * n)%nat) (scaled n charArt).
Proof.
  intros [Hlen Hrows]. unfold scaled. split.
  - rewrite length_stretch, length_fmap, Hlen. lia.
  - apply Forall_forall. intros row Hrow%elem_of_stretch.
    apply list_elem_of_fmap in Hrow as (r & -> & Hr).
    rewrite length_stretch. rewrite Forall_forall in Hrows.
    rewrite (Hrows r Hr). lia.
Qed.

Lemma scaled_cell (n : nat) (charArt : list jsstring) (i j : nat) :
  (0 < n)%nat → cell (scaled n charArt) i j = cell charArt (i / n) (j / n).
Proof.
  intros Hn. unfold cell, scaled.
  rewrite lookup_stretch, list_lookup_fmap by done.
  destruct (charArt !! (i / n)%nat) as [row|]; simpl; [|done].
  by apply lookup_stretch.
Qed.

(** ** Assembling the digit rows *)

Lemma generateScaledTimerRows_rows (timeString : jsstring) (s : Z) :
  timeString ≠ [] → 1 ≤ s →
  generateScaledTimerRows timeString s =
    Some ((λ i, Js.join (replicate (2 * Z.to_nat s) 32%N)
                  ((λ part : list jsstring, part !! i) <$> blocks timeString (Z.to_nat s)))
            <$> seq 0 (5 * Z.to_nat s)).
Proof.
  intros Hne Hs. unfold generateScaledTimerRows, Js.chars.
  rewrite (mapM_total _ (λ char, scaled (Z.to_nat s) (baseArt char)))
    by (intros; by apply scaleAsciiCharacter_scaled).
  rewrite <- list_fmap_compose. unfold compose, blocks.
  destruct timeString as [|c ts]; [done|].
  cbn [mbind option_bind fmap list_fmap head].
  change (Js.lit " ") with [32%N]. rewrite repeat_unit by lia.
  cbn [mbind option_bind].
  destruct (scaled_shape (Z.to_nat s) (baseArt [c]) (baseArt_shape _)) as [-> _].
  by replace (Z.to_nat (s * 2)) with (2 * Z.to_nat s)%nat by lia.
Qed.

Lemma length_join_uniform (sep : jsstring) (k : nat) (parts : list (option jsstring)) :
  Forall (λ o, ∃ x : jsstring, o = Some x ∧ length x = k) parts →
  length (Js.join sep parts)
  = (length parts * k + (length parts - 1) * length sep)%nat.
Proof.
  induction 1 as [|o l (x & -> & Hx) Hl IH]; [done|].
  destruct l as [|o' l]; simpl in *; [lia|].
  rewrite !length_app, IH, Hx. lia.
Qed.

Lemma blocks_row (timeString : jsstring) (n i : nat) :
  (i < 5 * n)%nat →
  Forall (λ o, ∃ x : jsstring, o = Some x ∧ length x = (5 * n)%nat)
    ((λ part : list jsstring, part !! i) <$> blocks timeString n).
Proof.
  intros Hi. apply Forall_fmap, Forall_fmap, Forall_forall. intros c _. simpl.
  destruct (scaled_shape n (baseArt [c]) (baseArt_shape _)) as [Hlen Hrows].
  destruct (lookup_lt_is_Some_2 (scaled n (baseArt [c])) i) as [row Hrow]; [lia|].
  exists row. split; [done|].
  rewrite Forall_forall in Hrows. apply Hrows.
  by eapply list_elem_of_lookup_2.
Qed.

Lemma generateScaledTimerRows_is_Some (timeString : jsstring) (s : Z) :
  timeString ≠ [] → 1 ≤ s → is_Some (generateScaledTimerRows timeString s).
Proof. intros. rewrite generateScaledTimerRows_rows by done. by eexists. Qed.

Lemma baseArt_substitute (c : N) : baseArt [substitute c] = baseArt [c].
Proof.
  unfold substitute, baseArt.
  destruct (ASCII_NUMBERS !! c) as [a|] eqn:Ha; [by rewrite Ha|done].
Qed.

(** ** The frame never fails on a progress within [0, 1] *)

Lemma centerContent_is_Some (c : content) (terminalWidth : Z) :
  is_Some (centerContent c terminalWidth).
Proof.
  unfold centerContent.
  set (lines := match c with Lines l => l | Text s => Js.split 10 s end).
  destruct (mapM_is_Some_2
    (λ line, padding ← Js.repeat (Js.lit " ")
                 (Z.max 0 ((terminalWidth - Z.of_nat (length line)) / 2));
             Some (padding ++ line)) lines) as [centered ->]; [|by eexists].
  apply Forall_forall. intros line _. simpl.
  destruct (repeat_is_Some (Js.lit " ")
    (Z.max 0 ((terminalWidth - Z.of_nat (length line)) / 2))) as [pad ->]; [lia|].
  by eexists.
Qed.

Lemma barContent_in_range (terminalWidth : Z) (progress : Q) :
  (0 <= progress)%Q → (progress <= 1)%Q →
  let bw := barWidth terminalWidth in
  let fw := filledWidth bw progress in
  barContent terminalWidth progress
  = Some ([91%N] ++ replicate (Z.to_nat fw) 9608%N
            ++ replicate (Z.to_nat (emptyWidth bw fw)) 9617%N ++ [93%N]).
Proof.
  intros H0 H1 bw fw. unfold barContent. fold bw. fold fw.
  pose proof (barWidth_min terminalWidth).
  pose proof (filledWidth_bounds bw progress ltac:(lia) H0 H1).
  change (Js.lit "█") with [9608%N]. change (Js.lit "░") with [9617%N].
  rewrite !repeat_unit by (unfold emptyWidth; lia). done.
Qed.

Lemma scale_min (terminalWidth terminalHeight : Z) :
  1 ≤ scale terminalWidth terminalHeight.
Proof. unfold scale. lia. Qed.

Lemma timeString_nonempty (minutes seconds : Z) : timeString minutes seconds ≠ [].
Proof.
  unfold timeString. intros H. apply (f_equal length) in H.
  rewrite !length_app in H. simpl in H. lia.
Qed.

Lemma fullDisplay_is_Some (terminalWidth terminalHeight : Z)
    (progress : Q) (minutes seconds : Z) :
  (0 <= progress)%Q → (progress <= 1)%Q →
  is_Some (fullDisplay terminalWidth terminalHeight progress minutes seconds).
Proof.
  intros H0 H1. unfold fullDisplay.
  rewrite barContent_in_range by done. cbn [mbind option_bind].
  destruct (centerContent_is_Some (Text ([91%N] ++
    replicate (Z.to_nat (filledWidth (barWidth terminalWidth) progress)) 9608%N ++
    replicate (Z.to_nat (emptyWidth (barWidth terminalWidth)
      (filledWidth (barWidth terminalWidth) progress))) 9617%N ++ [93%N]))
    terminalWidth) as [centeredBar ->].
  cbn [mbind option_bind].
  destruct (generateScaledTimerRows_is_Some (timeString minutes seconds)
    (scale terminalWidth terminalHeight)) as [timerRows ->];
    [apply timeString_nonempty|apply scale_min|].
  cbn [mbind option_bind].
  destruct (centerContent_is_Some (Lines timerRows) terminalWidth) as [t ->].
  by eexists.
Qed.

Lemma fullDisplay_out_of_range (terminalWidth terminalHeight : Z)
    (progress : Q) (minutes seconds : Z) :
  filledWidth (barWidth terminalWidth) progress < 0
  ∨ barWidth terminalWidth < filledWidth (barWidth terminalWidth) progress →
  fullDisplay terminalWidth terminalHeight progress minutes seconds = None.
Proof.
  intros H. unfold fullDisplay, barContent. cbv zeta.
  destruct H as [H|H].
  - by rewrite (repeat_negative _ _ H).
  - destruct (Js.repeat _ (filledWidth _ _)); [|done]. cbn [mbind option_bind].
    rewrite repeat_negative; [done|unfold emptyWidth; lia].
Qed.

(** ** The driver, one event at a time *)

Lemma progress_of_range (total timeLeft : Z) :
  0 < total → 0 ≤ timeLeft ≤ total →
  (0 <= progress_of total timeLeft)%Q ∧ (progress_of total timeLeft <= 1)%Q.
Proof.
  intros Ht Hl. unfold progress_of.
  destruct (Z.ltb_spec 0 total); [|lia].
  assert (Hpos : (0 < inject_Z total)%Q)
    by (change (inject_Z 0 < inject_Z total)%Q; rewrite <- Zlt_Qlt; lia).
  split.
  - apply Qle_shift_div_l; [done|]. rewrite Qmult_0_l.
    change (inject_Z 0 <= inject_Z (total - timeLeft))%Q.
    rewrite <- Zle_Qle. lia.
  - apply Qle_shift_div_r; [done|]. rewrite Qmult_1_l.
    rewrite <- Zle_Qle. lia.
Qed.

Lemma frame_of_is_Some (p : process) : counters_ok p → is_Some (frame_of p).
Proof.
  intros [Ht Hl]. unfold frame_of.
  destruct (progress_of_range _ _ Ht Hl). by apply fullDisplay_is_Some.
Qed.

Lemma redraw_drew (p : process) (frame : jsstring) :
  frame_of p = Some frame → redraw p = (Return (), drew frame p).
Proof.
  destruct p as [c r w tp ti sl rl st dm ts tl dr].
  unfold frame_of, redraw, drawDisplay, drew, call_of. io_eval. intros ->. done.
Qed.

Lemma redraw_throws (p : process) :
  frame_of p = None →
  redraw p = (Throw, push_written CLEAR_SCREEN (push_drawn (call_of p) p)).
Proof.
  destruct p as [c r w tp ti sl rl st dm ts tl dr].
  unfold frame_of, redraw, drawDisplay, call_of. io_eval. intros ->. done.
Qed.

Lemma onTimeout_drew (p : process) (frame : jsstring) :
  frame_of p = Some frame →
  onTimeout p
  = (Return (),
     drew frame (set_timerInterval true (set_resizeListener true
       (set_sigintListener true (push_written HIDE_CURSOR p))))).
Proof.
  intros H. destruct p as [c r w tp ti sl rl st dm ts tl dr].
  unfold onTimeout. io_eval. by erewrite redraw_drew by exact H.
Qed.

Lemma onInterval_drew (p : process) (frame : jsstring) :
  0 < timeLeftInSeconds p →
  frame_of (set_timeLeft (timeLeftInSeconds p - 1) p) = Some frame →
  onInterval p
  = (Return (), drew frame (set_timeLeft (timeLeftInSeconds p - 1) p)).
Proof.
  intros Hpos H. destruct p as [c r w tp ti sl rl st dm ts tl dr].
  unfold onInterval. io_eval. simpl in Hpos.
  destruct (Z.leb_spec tl 0) as [?|_]; [lia|].
  cbn. by erewrite redraw_drew by exact H.
Qed.

Lemma onTimeout_running (p : process) :
  starting p →
  ∃ frame,
    frame_of p = Some frame
    ∧ running (deliver timer p TimeoutFires)
    ∧ written (deliver timer p TimeoutFires)
      = written p ++ [HIDE_CURSOR; CLEAR_SCREEN; frame]
    ∧ drawn (deliver timer p TimeoutFires) = drawn p ++ [call_of p]
    ∧ timeLeftInSeconds (deliver timer p TimeoutFires) = timeLeftInSeconds p
    ∧ totalSeconds (deliver timer p TimeoutFires) = totalSeconds p
    ∧ columns (deliver timer p TimeoutFires) = columns p
    ∧ rows (deliver timer p TimeoutFires) = rows p.
Proof.
  intros (Hst & Htp & Hti & Hsl & Hrl & Ht & Hl).
  destruct (frame_of_is_Some p) as [frame Hframe]; [unfold counters_ok; lia|].
  exists frame. split; [done|].
  unfold deliver. rewrite Hst, Htp. cbn [timer timeout_callback].
  rewrite (onTimeout_drew _ frame) by (by destruct p).
  destruct p as [c r w tp ti sl rl st dm ts tl dr].
  unfold running. cbn. by rewrite <- !app_assoc.
Qed.

Lemma onInterval_counts (p : process) :
  running p → counters_ok p → 0 < timeLeftInSeconds p →
  ∃ frame,
    frame_of (set_timeLeft (timeLeftInSeconds p - 1) p) = Some frame
    ∧ running (deliver timer p IntervalFires)
    ∧ written (deliver timer p IntervalFires)
      = written p ++ [CLEAR_SCREEN; frame]
    ∧ drawn (deliver timer p IntervalFires)
      = drawn p ++ [call_of (set_timeLeft (timeLeftInSeconds p - 1) p)]
    ∧ timeLeftInSeconds (deliver timer p IntervalFires) = timeLeftInSeconds p - 1
    ∧ totalSeconds (deliver timer p IntervalFires) = totalSeconds p
    ∧ columns (deliver timer p IntervalFires) = columns p
    ∧ rows (deliver timer p IntervalFires) = rows p.
Proof.
  intros (Hst & Htp & Hti & Hsl & Hrl) [Ht Hl] Hpos.
  destruct (frame_of_is_Some (set_timeLeft (timeLeftInSeconds p - 1) p))
    as [frame Hframe].
  { destruct p; unfold counters_ok; simpl in *; lia. }
  exists frame. split; [done|].
  unfold deliver. rewrite Hst, Hti. cbn [timer interval_callback].
  rewrite (onInterval_drew _ frame) by done.
  destruct p as [c r w tp ti sl rl st dm ts tl dr].
  unfold running. cbn in *. subst. by rewrite <- !app_assoc.
Qed.

Lemma onResize_redraws (p : process) (c r : Z) :
  running p → counters_ok p →
  ∃ frame,
    frame_of (set_size c r p) = Some frame
    ∧ deliver timer p (Resize c r) = drew frame (set_size c r p).
Proof.
  intros (Hst & Htp & Hti & Hsl & Hrl) Hok.
  destruct (frame_of_is_Some (set_size c r p)) as [frame Hframe].
  { by destruct p. }
  exists frame. split; [done|].
  unfold deliver. rewrite Hst.
  replace (resizeListener (set_size c r p)) with true by (by destruct p).
  cbn [timer resize_callback]. by rewrite (redraw_drew _ frame).
Qed.

Lemma onInterval_completes (p : process) :
  status p = None → timerInterval p = true → timeLeftInSeconds p ≤ 0 →
  deliver timer p IntervalFires
  = set_status (ExitCode 0)
      (push_written TIMES_UP (push_written SHOW_CURSOR
         (set_resizeListener false (set_timerInterval false p)))).
Proof.
  intros Hst Hti Hl. unfold deliver. rewrite Hst, Hti.
  cbn [timer interval_callback].
  destruct p as [c r w tp ti sl rl st dm ts tl dr]. simpl in Hl.
  unfold onInterval. io_eval.
  destruct (Z.leb_spec tl 0) as [_|?]; [|lia]. done.
Qed.

Lemma onSIGINT_exits (p : process) :
  status p = None → sigintListener p = true →
  deliver timer p SIGINT
  = set_status (ExitCode 0)
      (push_written CANCELLED (push_written SHOW_CURSOR p)).
Proof.
  intros Hst Hsl. unfold deliver. rewrite Hst, Hsl.
  by destruct p as [c r w tp ti sl rl st dm ts tl dr].
Qed.

Lemma deliver_ended (h : handlers) (p : process) (ev : event) :
  status p ≠ None → deliver h p ev = p.
Proof. intros H. unfold deliver. by destruct (status p). Qed.

Lemma run_ended (h : handlers) (p : process) (evs : list event) :
  status p ≠ None → run h p evs = p.
Proof.
  intros H. unfold run. induction evs as [|ev evs IH]; [done|].
  simpl. by rewrite deliver_ended.
Qed.

(** ** Reachable processes *)

Lemma starting_shape (p : process) : starting p → shape p.
Proof.
  intros (Hst & Htp & Hti & Hsl & Hrl & Ht & Hl).
  split; [unfold counters_ok; lia|]. intros _. by left.
Qed.

Lemma launch_starting (args0 : option jsstring) (parsed : option Z)
    (c r : option Z) :
  starting (launch args0 parsed c r) ∧ drawn (launch args0 parsed c r) = [].
Proof.
  unfold launch, main, boot, starting.
  destruct parsed as [n|]; [destruct (Z.leb_spec n 0)|];
    destruct args0 as [raw|]; io_eval; repeat split; lia.
Qed.

Lemma ended_shape (p : process) :
  counters_ok p → status p ≠ None → shape p.
Proof. intros Hok Hst. split; [done|]. intros ?. done. Qed.

Lemma deliver_shape (p : process) (ev : event) :
  shape p → shape (deliver timer p ev).
Proof.
  intros [Hok Hsh].
  destruct (status p) as [st|] eqn:Hst.
  { rewrite deliver_ended by congruence. split; [done|]. by rewrite Hst. }
  destruct (Hsh eq_refl) as [(Htp & Hti & Hsl & Hrl & Hl)|Hrun].
  - destruct ev as [| |c r|].
    + destruct (onTimeout_running p) as (frame & _ & Hr & _ & _ & Htl & Htot & _).
      { unfold starting. destruct Hok. repeat split; try done. }
      split; [|by right]. unfold counters_ok. rewrite Htl, Htot. apply Hok.
    + unfold deliver. rewrite Hst, Hti. split; [done|]. rewrite Hst. by left.
    + unfold deliver. rewrite Hst.
      replace (resizeListener (set_size c r p)) with false by (by destruct p).
      destruct p as [? ? w tp ti sl rl st dm ts tl dr]. simpl in *. subst.
      split; [done|]. intros _. left. by unfold pending.
    + unfold deliver. rewrite Hst, Hsl.
      apply ended_shape; by destruct p.
  - pose proof Hrun as (_ & Htp & Hti & Hsl & Hrl).
    destruct ev as [| |c r|].
    + unfold deliver. rewrite Hst, Htp. split; [done|]. by right.
    + destruct (Z.lt_ge_cases 0 (timeLeftInSeconds p)) as [Hpos|Hzero].
      * destruct (onInterval_counts p Hrun Hok Hpos)
          as (frame & _ & Hr & _ & _ & Htl & Htot & _).
        split; [|by right]. unfold counters_ok. rewrite Htl, Htot.
        destruct Hok. lia.
      * rewrite onInterval_completes by done.
        apply ended_shape; by destruct p.
    + destruct (onResize_redraws p c r Hrun Hok) as (frame & _ & ->).
      destruct p as [? ? w tp ti sl rl st dm ts tl dr].
      unfold running in *. simpl in *. split; [done|]. intros _. by right.
    + rewrite onSIGINT_exits by done. apply ended_shape; by destruct p.
Qed.

Lemma run_shape (p : process) (evs : list event) :
  shape p → shape (run timer p evs).
Proof.
  revert p. induction evs as [|ev evs IH]; intros p Hp; [done|].
  simpl. apply IH. by apply deliver_shape.
Qed.

Lemma run_snoc (h : handlers) (p : process) (evs : list event) (ev : event) :
  run h p (evs ++ [ev]) = deliver h (run h p evs) ev.
Proof. unfold run. by rewrite foldl_app. Qed.

(** ** Counting down *)




(** ** What [drawDisplay] is called with *)





Lemma deliver_resize_timeLeft (p : process) (c r : Z) :
  timeLeftInSeconds (deliver timer p (Resize c r)) = timeLeftInSeconds p
  ∧ totalSeconds (deliver timer p (Resize c r)) = totalSeconds p.
Proof.
  unfold deliver. destruct (status p); [done|].
  destruct (resizeListener (set_size c r p)); [|by destruct p].
  cbn [timer resize_callback].
  destruct (frame_of (set_size c r p)) as [frame|] eqn:Hf.
  - rewrite (redraw_drew _ frame) by done. by destruct p.
  - rewrite redraw_throws by done. by destruct p.
Qed.

Lemma deliver_running (p : process) (ev : event) :
  running p → counters_ok p → status (deliver timer p ev) = None →
  running (deliver timer p ev) ∧ counters_ok (deliver timer p ev).
Proof.
  intros Hrun Hok.
  pose proof Hrun as (Hst & Htp & Hti & Hsl & Hrl).
  destruct ev as [| |c r|].
  - unfold deliver. by rewrite Hst, Htp.
  - destruct (Z.lt_ge_cases 0 (timeLeftInSeconds p)) as [Hpos|Hzero].
    + destruct (onInterval_counts p Hrun Hok Hpos)
        as (frame & _ & Hr & _ & _ & Htl & Htot & _).
      intros _. split; [done|]. unfold counters_ok. rewrite Htl, Htot.
      destruct Hok. lia.
    + rewrite onInterval_completes by done. by destruct p.
  - destruct (onResize_redraws p c r Hrun Hok) as (frame & _ & ->).
    destruct p as [? ? w tp ti sl rl st dm ts tl dr].
    unfold running in *. by simpl in *.
  - rewrite onSIGINT_exits by done. by destruct p.
Qed.

Lemma run_running (p : process) (evs : list event) :
  running p → counters_ok p → status (run timer p evs) = None →
  running (run timer p evs) ∧ counters_ok (run timer p evs).
Proof.
  revert p. induction evs as [|ev evs IH]; intros p Hrun Hok Halive; [done|].
  simpl in *.
  destruct (status (deliver timer p ev)) as [st|] eqn:Hst.
  { rewrite run_ended in Halive by congruence. congruence. }
  destruct (deliver_running p ev Hrun Hok Hst). by apply IH.
Qed.

Lemma run_resizes_timeLeft (p : process) (evs : list event) :
  Forall (λ ev, ∃ c r, ev = Resize c r) evs →
  timeLeftInSeconds (run timer p evs) = timeLeftInSeconds p
  ∧ totalSeconds (run timer p evs) = totalSeconds p.
Proof.
  intros H. revert p. induction H as [|ev evs (c & r & ->) _ IH]; intros p; [done|].
  simpl. destruct (IH (deliver timer p (Resize c r))) as [-> ->].
  apply deliver_resize_timeLeft.
Qed.

(** * The claims *)




(** The interval callback of [index.js] decrements first and tests
    afterwards: there the transition fires on the period that reaches 0. *)
Lemma IndexJs_completes_on_zero :
  timeLeftInSeconds (ticks IndexJs.timer one_minute 60) = 0
  ∧ completes_at IndexJs.timer one_minute 60.
Proof. split; [vm_compute; reflexivity|]. vm_compute. repeat split. Qed.

(** C2 (as amended). The filled-cell count is [round(barWidth * progress)]
    and is not clamped. For every progress within [0, 1], the range the
    documentation of [drawDisplay] gives for it, the count lies within
    [0, barWidth], the empty-cell count is not negative, and
    [drawDisplay] returns normally on every terminal, having written the
    clear-screen sequence and one frame. *)
Theorem C2_unclamped_count_in_range (p : process) (progress : Q)
    (minutes seconds : Z) :
  (0 <= progress)%Q → (progress <= 1)%Q →
  let bw := barWidth (Js.or_else (columns p) 80) in
  let fw := filledWidth bw progress in
  0 ≤ fw ≤ bw
  ∧ 0 ≤ emptyWidth bw fw
  ∧ ∃ frame,
      fullDisplay (Js.or_else (columns p) 80) (Js.or_else (rows p) 24)
        progress minutes seconds = Some frame
      ∧ drawDisplay progress minutes seconds p
        = (Return (),
           push_written frame (push_written CLEAR_SCREEN
             (push_drawn (progress, minutes, seconds) p))).
Proof.
  intros H0 H1 bw fw.
  pose proof (barWidth_min (Js.or_else (columns p) 80)).
  pose proof (filledWidth_bounds bw progress ltac:(lia) H0 H1) as Hfw.
  split; [exact Hfw|]. split; [unfold emptyWidth; lia|].
  destruct (fullDisplay_is_Some (Js.or_else (columns p) 80)
    (Js.or_else (rows p) 24) progress minutes seconds H0 H1) as [frame Hframe].
  exists frame. split; [done|].
  destruct p as [c r w tp ti sl rl st dm ts tl dr].
  unfold drawDisplay. io_eval. cbn in Hframe. by rewrite Hframe.
Qed.

(** The theorem at half of the duration, on the one-minute timer. *)
Lemma C2_witness :
  (0 <= 1 # 2)%Q ∧ (1 # 2 <= 1)%Q
  ∧ 0 ≤ filledWidth (barWidth (Js.or_else (columns one_minute) 80)) (1 # 2)
      ≤ barWidth (Js.or_else (columns one_minute) 80).
Proof.
  assert (H0 : (0 <= 1 # 2)%Q) by (vm_compute; discriminate).
  assert (H1 : (1 # 2 <= 1)%Q) by (vm_compute; discriminate).
  split; [exact H0|]. split; [exact H1|].
  exact (proj1 (C2_unclamped_count_in_range one_minute (1 # 2) 0 30 H0 H1)).
Defined.

(** C2, as the specification states it, fails: on an 80-column terminal a
    progress slightly above 1 gives 71 filled cells for a bar of 70, a
    progress slightly below 0 gives -1, and in both cases the frame is not
    produced ([String.prototype.repeat] throws on the negative count). *)
Lemma C2_counterexample :
  barWidth 80 = 70
  ∧ filledWidth (barWidth 80) (101 # 100) = 71
  ∧ emptyWidth (barWidth 80) (filledWidth (barWidth 80) (101 # 100)) = -1
  ∧ fullDisplay 80 24 (101 # 100) 0 0 = None
  ∧ filledWidth (barWidth 80) (-1 # 100) = -1
  ∧ fullDisplay 80 24 (-1 # 100) 0 0 = None
  ∧ status (settle (drawDisplay (101 # 100) 0 0 one_minute))
    = Some UncaughtException.
Proof. repeat split; vm_compute; reflexivity. Qed.

(** The frame is produced exactly when the unclamped count is in range. *)
Lemma fullDisplay_is_Some_iff (terminalWidth terminalHeight : Z)
    (progress : Q) (minutes seconds : Z) :
  is_Some (fullDisplay terminalWidth terminalHeight progress minutes seconds)
  ↔ 0 ≤ filledWidth (barWidth terminalWidth) progress ≤ barWidth terminalWidth.
Proof.
  split.
  - intros [frame Hframe].
    destruct (Z.lt_ge_cases (filledWidth (barWidth terminalWidth) progress) 0);
      [rewrite fullDisplay_out_of_range in Hframe by (by left); done|].
    destruct (Z.lt_ge_cases (barWidth terminalWidth)
                (filledWidth (barWidth terminalWidth) progress));
      [rewrite fullDisplay_out_of_range in Hframe by (by right); done|].
    lia.
  - intros Hfw. unfold fullDisplay, barContent. cbv zeta.
    destruct (repeat_is_Some (Js.lit "█")
      (filledWidth (barWidth terminalWidth) progress)) as [f ->]; [lia|].
    destruct (repeat_is_Some (Js.lit "░")
      (emptyWidth (barWidth terminalWidth)
         (filledWidth (barWidth terminalWidth) progress))) as [e ->];
      [unfold emptyWidth; lia|].
    cbn [mbind option_bind].
    destruct (centerContent_is_Some
      (Text (Js.lit "[" ++ f ++ e ++ Js.lit "]")) terminalWidth) as [b ->].
    cbn [mbind option_bind].
    destruct (generateScaledTimerRows_is_Some (timeString minutes seconds)
      (scale terminalWidth terminalHeight)) as [timerRows ->];
      [apply timeString_nonempty|apply scale_min|].
    cbn [mbind option_bind].
    destruct (centerContent_is_Some (Lines timerRows) terminalWidth) as [t ->].
    by eexists.
Qed.

(** C3 (as amended). For every process started with [totalSeconds > 0]: once
    the grace delay has elapsed and its callback has installed the SIGINT
    listener, an interrupt produces a clean Cancelled exit, whatever
    happened in between: the cursor is shown, the cancellation message is
    written last, the exit status is 0, the counter is left as it was and
    no later event is handled. In particular an interrupt before the first
    period of the interval, with any resizes in between, finds the counter
    at [totalSeconds]: no tick was processed. *)
Theorem C3_interrupt_after_grace_delay (p : process) (evs : list event) :
  starting p →
  status (run timer p (TimeoutFires :: evs)) = None →
  status (run timer p (TimeoutFires :: evs ++ [SIGINT])) = Some (ExitCode 0)
  ∧ written (run timer p (TimeoutFires :: evs ++ [SIGINT]))
    = written (run timer p (TimeoutFires :: evs)) ++ [SHOW_CURSOR; CANCELLED]
  ∧ timeLeftInSeconds (run timer p (TimeoutFires :: evs ++ [SIGINT]))
    = timeLeftInSeconds (run timer p (TimeoutFires :: evs))
  ∧ (∀ later, run timer p ((TimeoutFires :: evs ++ [SIGINT]) ++ later)
              = run timer p (TimeoutFires :: evs ++ [SIGINT]))
  ∧ (Forall (λ ev, ∃ c r, ev = Resize c r) evs →
     timeLeftInSeconds (run timer p (TimeoutFires :: evs ++ [SIGINT]))
     = totalSeconds p).
Proof.
  intros Hp Halive.
  destruct (onTimeout_running p Hp) as (frame & _ & Hr & _ & _ & Htl & Htot & _).
  assert (Hok : counters_ok (deliver timer p TimeoutFires)).
  { unfold counters_ok. rewrite Htl, Htot.
    destruct Hp as (_ & _ & _ & _ & _ & Ht & Hl). lia. }
  change (run timer p (TimeoutFires :: evs))
    with (run timer (deliver timer p TimeoutFires) evs) in *.
  change (run timer p (TimeoutFires :: evs ++ [SIGINT]))
    with (run timer (deliver timer p TimeoutFires) (evs ++ [SIGINT])).
  rewrite run_snoc.
  destruct (run_running _ evs Hr Hok Halive) as [(Hst & _ & _ & Hsl & _) _].
  rewrite onSIGINT_exits by done.
  set (q := run timer (deliver timer p TimeoutFires) evs) in *.
  split; [by destruct q|]. split; [|split; [by destruct q|split]].
  - destruct q. simpl. by rewrite <- app_assoc.
  - intros later.
    change (run timer p ((TimeoutFires :: evs ++ [SIGINT]) ++ later))
      with (run timer (deliver timer p TimeoutFires) ((evs ++ [SIGINT]) ++ later)).
    unfold run at 1. rewrite foldl_app. fold (run timer (deliver timer p TimeoutFires) (evs ++ [SIGINT])).
    rewrite run_snoc. fold q. rewrite onSIGINT_exits by done.
    apply run_ended. by destruct q.
  - intros Hres. destruct (run_resizes_timeLeft (deliver timer p TimeoutFires) evs Hres)
      as [Hl _].
    fold q in Hl. destruct Hp as (_ & _ & _ & _ & _ & _ & Hl').
    transitivity (timeLeftInSeconds q); [by destruct q|]. lia.
Qed.

(** The theorem at an interrupt that follows the timeout and one resize. *)
Lemma C3_witness :
  starting one_minute
  ∧ status (run timer one_minute (TimeoutFires :: [Resize 100 30])) = None
  ∧ status (run timer one_minute (TimeoutFires :: [Resize 100 30] ++ [SIGINT]))
    = Some (ExitCode 0).
Proof.
  assert (H : starting one_minute) by (vm_compute; repeat split; reflexivity).
  assert (Halive : status (run timer one_minute (TimeoutFires :: [Resize 100 30]))
                   = None) by (vm_compute; reflexivity).
  split; [exact H|]. split; [exact Halive|].
  exact (proj1 (C3_interrupt_after_grace_delay one_minute [Resize 100 30] H Halive)).
Defined.

(** C3, as the specification states it, fails during the grace delay: the
    listener is not installed yet, the interrupt takes its default action,
    and the process ends without the cancellation message and without the
    success status. *)
Lemma C3_counterexample :
  starting one_minute
  ∧ status (deliver timer one_minute SIGINT) = Some KilledBySignal
  ∧ written (deliver timer one_minute SIGINT) = written one_minute
  ∧ ¬ (status (deliver timer one_minute SIGINT) = Some (ExitCode 0)
       ∧ CANCELLED ∈ written (deliver timer one_minute SIGINT)).
Proof.
  split; [vm_compute; repeat split; reflexivity|].
  split; [vm_compute; reflexivity|].
  split; [vm_compute; reflexivity|].
  intros [Hst _]. vm_compute in Hst. discriminate.
Qed.

(** C4 (as amended). After an interrupt no callback ever runs again: the
    process has ended (the handler calls [process.exit(0)] after its two
    writes, or the default action has killed the process), and every later
    event, tick or resize, leaves the whole state and everything written
    unchanged. The handler does not unregister the interval or the resize
    listener. *)
Theorem C4_nothing_runs_after_interrupt (p : process) (later : list event) :
  status (deliver timer p SIGINT) ≠ None
  ∧ run timer (deliver timer p SIGINT) later = deliver timer p SIGINT
  ∧ timerInterval (deliver timer p SIGINT) = timerInterval p
  ∧ resizeListener (deliver timer p SIGINT) = resizeListener p.
Proof.
  assert (Hst : status (deliver timer p SIGINT) ≠ None).
  { unfold deliver. destruct (status p) eqn:Hst; [congruence|].
    destruct (sigintListener p); by destruct p. }
  split; [done|]. split; [by apply run_ended|].
  unfold deliver. destruct (status p); [done|].
  destruct (sigintListener p); by destruct p.
Qed.

(** C4, as the specification states it, fails: after the interrupt of a
    running timer the interval and the resize listener are still
    registered; the handler has not unregistered them. *)
Lemma C4_counterexample :
  status (run timer one_minute [TimeoutFires; SIGINT]) = Some (ExitCode 0)
  ∧ ¬ (timerInterval (run timer one_minute [TimeoutFires; SIGINT]) = false
       ∧ resizeListener (run timer one_minute [TimeoutFires; SIGINT]) = false).
Proof.
  split; [vm_compute; reflexivity|].
  intros [Hti _]. vm_compute in Hti. discriminate.
Qed.

(** C5. For every progress within [0, 1] and every bar width of at least
    10, the filled count [round(barWidth * progress)] lies within
    [0, barWidth] and the filled and empty counts add up to the bar width;
    progress 0 gives no filled cell and progress 1 no empty cell; and the
    bar of a terminal with that bar width is an opening bracket, the filled
    cells, the empty cells and a closing bracket, [barWidth + 2] units in
    all. *)
Theorem C5_bar_counts (bw : Z) (progress : Q) :
  10 ≤ bw → (0 <= progress)%Q → (progress <= 1)%Q →
  let fw := filledWidth bw progress in
  let ew := emptyWidth bw fw in
  0 ≤ fw ≤ bw
  ∧ fw + ew = bw
  ∧ ((progress == 0)%Q → fw = 0 ∧ ew = bw)
  ∧ ((progress == 1)%Q → fw = bw ∧ ew = 0)
  ∧ ∀ terminalWidth, barWidth terminalWidth = bw →
      barContent terminalWidth progress
      = Some ([91%N] ++ replicate (Z.to_nat fw) 9608%N
                ++ replicate (Z.to_nat ew) 9617%N ++ [93%N])
      ∧ Z.of_nat (length ([91%N] ++ replicate (Z.to_nat fw) 9608%N
                ++ replicate (Z.to_nat ew) 9617%N ++ [93%N])) = bw + 2.
Proof.
  intros Hbw H0 H1 fw ew.
  pose proof (filledWidth_bounds bw progress ltac:(lia) H0 H1) as Hfw.
  fold fw in Hfw.
  assert (Hzero : (progress == 0)%Q → fw = 0).
  { intros E. unfold fw, filledWidth. rewrite E, Qmult_0_r. apply (round_half 0). }
  assert (Hone : (progress == 1)%Q → fw = bw).
  { intros E. unfold fw, filledWidth. rewrite E, Qmult_1_r. apply round_half. }
  split; [done|]. split; [unfold ew, emptyWidth; lia|].
  split; [intros E; unfold ew, emptyWidth; rewrite (Hzero E); lia|].
  split; [intros E; unfold ew, emptyWidth; rewrite (Hone E); lia|].
  intros terminalWidth Hw. split.
  - rewrite (barContent_in_range terminalWidth progress H0 H1).
    by rewrite Hw.
  - rewrite !length_app, !length_replicate. simpl.
    unfold ew, emptyWidth. lia.
Qed.

(** The theorem at a quarter of a bar of 70 cells. *)
Lemma C5_witness :
  10 ≤ 70 ∧ (0 <= 1 # 4)%Q ∧ (1 # 4 <= 1)%Q
  ∧ 0 ≤ filledWidth 70 (1 # 4) ≤ 70.
Proof.
  assert (Hbw : 10 ≤ 70) by lia.
  assert (H0 : (0 <= 1 # 4)%Q) by (vm_compute; discriminate).
  assert (H1 : (1 # 4 <= 1)%Q) by (vm_compute; discriminate).
  split; [exact Hbw|]. split; [exact H0|]. split; [exact H1|].
  exact (proj1 (C5_bar_counts 70 (1 # 4) Hbw H0 H1)).
Defined.

(** C6. For every viewport of at least one column and one row, the scale
    [drawDisplay] computes from the sizes the terminal reports is
    [max(1, min(floor((rows - 4) / 5), floor(columns / 35)))], and it is at
    least 1; a 1 x 1 viewport has scale 1. *)
Theorem C6_scale_formula (viewport_columns viewport_rows : Z) :
  1 ≤ viewport_columns → 1 ≤ viewport_rows →
  scale (Js.or_else (Some viewport_columns) 80) (Js.or_else (Some viewport_rows) 24)
  = spec_scale viewport_columns viewport_rows
  ∧ 1 ≤ scale (Js.or_else (Some viewport_columns) 80)
             (Js.or_else (Some viewport_rows) 24)
  ∧ scale (Js.or_else (Some 1) 80) (Js.or_else (Some 1) 24) = 1.
Proof.
  intros Hc Hr. unfold Js.or_else.
  destruct (Z.eqb_spec viewport_columns 0); [lia|].
  destruct (Z.eqb_spec viewport_rows 0); [lia|].
  split; [reflexivity|]. split; [apply scale_min|reflexivity].
Qed.

(** The theorem at the default 80 x 24 viewport. *)
Lemma C6_witness :
  1 ≤ 80 ∧ 1 ≤ 24
  ∧ scale (Js.or_else (Some 80) 80) (Js.or_else (Some 24) 24) = spec_scale 80 24.
Proof.
  assert (Hc : 1 ≤ 80) by lia. assert (Hr : 1 ≤ 24) by lia.
  split; [exact Hc|]. split; [exact Hr|].
  exact (proj1 (C6_scale_formula 80 24 Hc Hr)).
Defined.

(** C7. For every non-empty time string and every integer scale [s ≥ 1]:
    the glyph of each character, scaled, is a block of [5s] rows of [5s]
    cells whose cell [(i, j)] is cell [(i / s, j / s)] of the 5 x 5 glyph
    (each cell repeated [s] times across, each row [s] times down); the
    digit rows are the [5s] rows obtained by joining, row by row, the blocks
    of the characters with a separator of [2s] spaces; and all of them have
    the same length, [5s] per character and [2s] per gap. *)
Theorem C7_scaled_digit_rows (time : jsstring) (s : Z) :
  time ≠ [] → 1 ≤ s →
  (∀ c, scaleAsciiCharacter (baseArt [c]) s = Some (scaled (Z.to_nat s) (baseArt [c]))
        ∧ length (scaled (Z.to_nat s) (baseArt [c])) = (5 * Z.to_nat s)%nat
        ∧ Forall (λ row, length row = (5 * Z.to_nat s)%nat)
            (scaled (Z.to_nat s) (baseArt [c]))
        ∧ ∀ i j, cell (scaled (Z.to_nat s) (baseArt [c])) i j
                 = cell (baseArt [c]) (i / Z.to_nat s) (j / Z.to_nat s))
  ∧ ∃ timerRows,
      generateScaledTimerRows time s = Some timerRows
      ∧ length timerRows = (5 * Z.to_nat s)%nat
      ∧ (∀ i, (i < 5 * Z.to_nat s)%nat →
           timerRows !! i
           = Some (Js.join (replicate (2 * Z.to_nat s) 32%N)
                     ((λ c, scaled (Z.to_nat s) (baseArt [c]) !! i) <$> time)))
      ∧ Forall (λ row,
            length row = (length time * (5 * Z.to_nat s)
                          + (length time - 1) * (2 * Z.to_nat s))%nat)
          timerRows.
Proof.
  intros Hne Hs. split.
  - intros c.
    destruct (scaled_shape (Z.to_nat s) (baseArt [c]) (baseArt_shape _)) as [Hl Hr].
    split; [by apply scaleAsciiCharacter_scaled|].
    split; [done|]. split; [done|].
    intros i j. apply scaled_cell. lia.
  - eexists. split; [by apply generateScaledTimerRows_rows|].
    split; [by rewrite length_fmap, length_seq|]. split.
    + intros i Hi. rewrite list_lookup_fmap, lookup_seq_lt by done. simpl.
      unfold blocks. by rewrite <- list_fmap_compose.
    + apply Forall_fmap, Forall_forall. intros i Hi%elem_of_seq. simpl.
      rewrite (length_join_uniform _ (5 * Z.to_nat s)) by (apply blocks_row; lia).
      unfold blocks. by rewrite !length_fmap, length_replicate.
Qed.

(** The theorem at the string of 25 minutes, scale 2. *)
Lemma C7_witness :
  Js.lit "25:00" ≠ [] ∧ 1 ≤ 2
  ∧ ∃ timerRows,
      generateScaledTimerRows (Js.lit "25:00") 2 = Some timerRows
      ∧ length timerRows = 10%nat.
Proof.
  assert (Hne : Js.lit "25:00" ≠ []) by (vm_compute; discriminate).
  assert (Hs : 1 ≤ 2) by lia.
  split; [exact Hne|]. split; [exact Hs|].
  destruct (C7_scaled_digit_rows (Js.lit "25:00") 2 Hne Hs)
    as (_ & timerRows & Hrows & Hlen & _).
  exists timerRows. split; [exact Hrows|exact Hlen].
Defined.

(** C8. The resize handler never changes the counters: from every process
    the program can reach, any number of resize notifications in a row
    leaves [timeLeftInSeconds] (and [totalSeconds]) as it was; and while the
    timer runs, each of them clears the screen and writes the frame of the
    current remaining time for the new size. *)
Theorem C8_resize_keeps_remaining_time (args0 : option jsstring)
    (parsed c r : option Z) (evs : list event) (sizes : list (Z * Z)) :
  timeLeftInSeconds
    (run timer (run timer (launch args0 parsed c r) evs)
       ((λ size, Resize size.1 size.2) <$> sizes))
  = timeLeftInSeconds (run timer (launch args0 parsed c r) evs)
  ∧ totalSeconds
      (run timer (run timer (launch args0 parsed c r) evs)
         ((λ size, Resize size.1 size.2) <$> sizes))
    = totalSeconds (run timer (launch args0 parsed c r) evs)
  ∧ (running (run timer (launch args0 parsed c r) evs) →
     ∀ c' r', ∃ frame,
       frame_of (set_size c' r' (run timer (launch args0 parsed c r) evs))
       = Some frame
       ∧ written (deliver timer (run timer (launch args0 parsed c r) evs)
                    (Resize c' r'))
         = written (run timer (launch args0 parsed c r) evs)
           ++ [CLEAR_SCREEN; frame]
       ∧ running (deliver timer (run timer (launch args0 parsed c r) evs)
                    (Resize c' r'))).
Proof.
  set (p := run timer (launch args0 parsed c r) evs).
  assert (Hsh : shape p).
  { apply run_shape, starting_shape, launch_starting. }
  destruct (run_resizes_timeLeft p ((λ size, Resize size.1 size.2) <$> sizes))
    as [Htl Htot].
  { apply Forall_fmap, Forall_forall. intros [c' r'] _. simpl. by eauto. }
  split; [done|]. split; [done|].
  intros Hrun c' r'.
  destruct (onResize_redraws p c' r' Hrun (proj1 Hsh)) as (frame & Hf & ->).
  exists frame. split; [done|].
  destruct p as [? ? w tp ti sl rl st dm ts tl dr].
  unfold running in *. simpl in *. split; [|done]. by rewrite <- app_assoc.
Qed.

(** C9. For every time string and every scale [drawDisplay] can compute: a
    character that has no glyph in the table does not make the digit rows
    fail; it is drawn with the glyph of the colon, so the rows are those of
    the string in which the colon stands for it. *)
Theorem C9_unknown_character_substituted (time : jsstring)
    (terminalWidth terminalHeight : Z) (c : N) :
  c ∈ time → ASCII_NUMBERS !! c = None →
  baseArt [c] = baseArt [58%N]
  ∧ is_Some (generateScaledTimerRows time (scale terminalWidth terminalHeight))
  ∧ generateScaledTimerRows time (scale terminalWidth terminalHeight)
    = generateScaledTimerRows (substitute <$> time)
        (scale terminalWidth terminalHeight).
Proof.
  intros Hc Hnone.
  assert (Hne : time ≠ []) by (intros ->; by apply elem_of_nil in Hc).
  assert (Hne' : substitute <$> time ≠ []) by (by destruct time).
  pose proof (scale_min terminalWidth terminalHeight) as Hs.
  split; [unfold baseArt; by rewrite Hnone|].
  split; [by apply generateScaledTimerRows_is_Some|].
  rewrite !generateScaledTimerRows_rows by done.
  assert (Hb : ∀ n, blocks (substitute <$> time) n = blocks time n).
  { intros n. unfold blocks. rewrite <- list_fmap_compose.
    apply list_fmap_ext. intros _ x _. unfold compose.
    by rewrite baseArt_substitute. }
  by rewrite Hb.
Qed.

(** The theorem at a minus sign, which has no glyph. *)
Lemma C9_witness :
  45%N ∈ Js.lit "-1:00" ∧ ASCII_NUMBERS !! 45%N = None
  ∧ is_Some (generateScaledTimerRows (Js.lit "-1:00") (scale 80 24)).
Proof.
  assert (Hc : 45%N ∈ Js.lit "-1:00") by (vm_compute; left).
  assert (Hn : ASCII_NUMBERS !! 45%N = None) by (vm_compute; reflexivity).
  split; [exact Hc|]. split; [exact Hn|].
  exact (proj1 (proj2 (C9_unknown_character_substituted
                         (Js.lit "-1:00") 80 24 45%N Hc Hn))).
Defined.

(** The loop of [index.js] skips a character without a glyph. *)
Lemma IndexJs_unknown_character_skipped (time : jsstring) :
  IndexJs.timerRows time
  = IndexJs.timerRows (filter (λ c, is_Some (ASCII_NUMBERS !! c)) time).
Proof.
  unfold IndexJs.timerRows. generalize (replicate IndexJs.charHeight ([] : jsstring)).
  induction time as [|c time IH]; intros acc; [done|].
  rewrite filter_cons. simpl.
  destruct (ASCII_NUMBERS !! c) as [a|] eqn:Ha.
  - rewrite decide_True by (by eexists). simpl. rewrite Ha. apply IH.
  - rewrite decide_False by (by intros [? ?]). apply IH.
Qed.



(** * Further properties of the code *)

(** ** [main] *)


(** ** [centerContent] *)

Lemma centerContent_lines (l : list jsstring) (terminalWidth : Z) :
  centerContent (Lines l) terminalWidth
  = Some (Js.join NL (Some <$> (pad_line terminalWidth <$> l))).
Proof.
  unfold centerContent.
  rewrite (mapM_total _ (pad_line terminalWidth)); [done|].
  intros line _. change (Js.lit " ") with [32%N].
  rewrite repeat_unit by lia. done.
Qed.

Lemma split_nonempty (sep : N) (s : jsstring) : Js.split sep s ≠ [].
Proof.
  destruct s as [|c s]; simpl; [done|].
  destruct (c =? sep)%N; [done|]. by destruct (Js.split sep s).
Qed.

Lemma join_split (s : jsstring) : Js.join NL (Some <$> Js.split 10 s) = s.
Proof.
  induction s as [|c s IH]; [done|]. cbn [Js.split].
  pose proof (split_nonempty 10 s) as Hne. revert IH Hne.
  destruct (Js.split 10 s) as [|line lines]; intros IH Hne; [done|].
  destruct (N.eqb_spec c 10) as [->|Hc].
  - rewrite <- IH. reflexivity.
  - rewrite <- IH. by destruct lines.
Qed.

Lemma split_no_separator (sep : N) (s : jsstring) :
  sep ∉ s → Js.split sep s = [s].
Proof.
  induction s as [|c s IH]; intros Hs; [done|]. simpl.
  destruct (N.eqb_spec c sep) as [->|_]; [by destruct Hs; left|].
  rewrite IH; [done|]. intros ?. apply Hs. by right.
Qed.

Lemma pad_line_wide (terminalWidth : Z) (line : jsstring) :
  terminalWidth - 1 ≤ Z.of_nat (length line) → pad_line terminalWidth line = line.
Proof.
  intros H. unfold pad_line, left_padding.
  replace (Z.max 0 ((terminalWidth - Z.of_nat (length line)) / 2)) with 0; [done|].
  pose proof (Z.div_mod (terminalWidth - Z.of_nat (length line)) 2 ltac:(lia)).
  pose proof (Z.mod_pos_bound (terminalWidth - Z.of_nat (length line)) 2 ltac:(lia)).
  lia.
Qed.

(** X2. [centerContent], given an array of lines, returns them joined by
    newlines, each one behind its own padding of
    [max(0, floor((width - length) / 2))] spaces. A line that fits the
    width still fits once padded, and is centred: the free space on its
    right is the space on its left or one more. A line as long as the
    width less one, or longer, is left as it is. *)
Theorem X2_centerContent_centres (l : list jsstring) (terminalWidth : Z) :
  centerContent (Lines l) terminalWidth
  = Some (Js.join NL (Some <$> (pad_line terminalWidth <$> l)))
  ∧ ∀ line : jsstring,
      (Z.of_nat (length line) ≤ terminalWidth →
         Z.of_nat (length (pad_line terminalWidth line)) ≤ terminalWidth
         ∧ Z.of_nat (left_padding terminalWidth line)
           ≤ terminalWidth - Z.of_nat (length (pad_line terminalWidth line))
           ≤ Z.of_nat (left_padding terminalWidth line) + 1)
      ∧ (terminalWidth - 1 ≤ Z.of_nat (length line) →
         pad_line terminalWidth line = line).
Proof.
  split; [apply centerContent_lines|].
  intros line. split; [|apply pad_line_wide].
  intros Hfit. unfold pad_line. rewrite length_app, length_replicate.
  unfold left_padding.
  pose proof (Z.div_mod (terminalWidth - Z.of_nat (length line)) 2 ltac:(lia)).
  pose proof (Z.mod_pos_bound (terminalWidth - Z.of_nat (length line)) 2 ltac:(lia)).
  lia.
Qed.

(** X3. [centerContent], given a string, centres its lines one by one; a
    text whose every line is as long as the width less one, or longer,
    comes back unchanged. *)
Theorem X3_centerContent_wide_text (s : jsstring) (terminalWidth : Z) :
  Forall (λ line : jsstring, terminalWidth - 1 ≤ Z.of_nat (length line))
    (Js.split 10 s) →
  centerContent (Text s) terminalWidth = Some s.
Proof.
  intros Hwide.
  change (centerContent (Text s) terminalWidth)
    with (centerContent (Lines (Js.split 10 s)) terminalWidth).
  rewrite centerContent_lines. f_equal.
  rewrite <- (join_split s) at 2. do 2 f_equal.
  induction Hwide as [|line lines Hline _ IH]; [done|].
  rewrite fmap_cons, IH. f_equal. by apply pad_line_wide.
Qed.

(** The theorem at a text of two lines of two units, width 3. *)
Lemma X3_witness :
  Forall (λ line : jsstring, 3 - 1 ≤ Z.of_nat (length line))
    (Js.split 10 [97; 98; 10; 99; 100]%N)
  ∧ centerContent (Text [97; 98; 10; 99; 100]%N) 3 = Some [97; 98; 10; 99; 100]%N.
Proof.
  assert (H : Forall (λ line : jsstring, 3 - 1 ≤ Z.of_nat (length line))
                (Js.split 10 [97; 98; 10; 99; 100]%N))
    by (vm_compute; repeat constructor; discriminate).
  split; [exact H|].
  exact (X3_centerContent_wide_text [97; 98; 10; 99; 100]%N 3 H).
Defined.

(** ** The bar and the time string *)

Lemma bar_no_newline (fw ew : nat) :
  10%N ∉ [91%N] ++ replicate fw 9608%N ++ replicate ew 9617%N ++ [93%N].
Proof.
  rewrite !elem_of_app, !elem_of_replicate, !list_elem_of_singleton.
  intros [H|[[H _]|[[H _]|H]]]; discriminate.
Qed.

(** X4. For a progress within [0, 1] the bar is produced and has no
    newline, and [centerContent] puts it behind its padding. On a terminal
    of 20 columns or more the bar is 8 units shorter than the terminal and
    the padding is 4: the margin of [barMargin] columns on both sides. On a
    narrower terminal the bar keeps its least size, 12 units with the
    brackets. *)
Theorem X4_bar_margins (terminalWidth : Z) (progress : Q) :
  (0 <= progress)%Q → (progress <= 1)%Q →
  ∃ bar,
    barContent terminalWidth progress = Some bar
    ∧ (10%N ∉ bar)
    ∧ centerContent (Text bar) terminalWidth = Some (pad_line terminalWidth bar)
    ∧ (20 ≤ terminalWidth →
         Z.of_nat (length bar) = terminalWidth - 2 * barMargin
         ∧ Z.of_nat (left_padding terminalWidth bar) = barMargin
         ∧ Z.of_nat (length (pad_line terminalWidth bar))
           = terminalWidth - barMargin)
    ∧ (terminalWidth < 20 → length bar = 12%nat).
Proof.
  intros H0 H1. eexists. split; [by apply barContent_in_range|].
  set (bw := barWidth terminalWidth).
  pose proof (filledWidth_bounds bw progress
                ltac:(pose proof (barWidth_min terminalWidth); lia) H0 H1) as Hfw.
  set (fw := filledWidth bw progress) in *.
  split; [apply bar_no_newline|].
  assert (Hlen : Z.of_nat (length ([91%N] ++ replicate (Z.to_nat fw) 9608%N
                   ++ replicate (Z.to_nat (emptyWidth bw fw)) 9617%N ++ [93%N]))
                 = bw + 2).
  { rewrite !length_app, !length_replicate. simpl. unfold emptyWidth. lia. }
  split.
  { change (centerContent (Text ?b) terminalWidth)
      with (centerContent (Lines (Js.split 10 b)) terminalWidth).
    rewrite split_no_separator by apply bar_no_newline.
    by rewrite centerContent_lines. }
  unfold barMargin. split.
  - intros Hw. assert (Hbw : bw = terminalWidth - 10)
      by (unfold bw, barWidth, barMargin; lia).
    assert (Hpad : Z.of_nat (left_padding terminalWidth
              ([91%N] ++ replicate (Z.to_nat fw) 9608%N
               ++ replicate (Z.to_nat (emptyWidth bw fw)) 9617%N ++ [93%N])) = 4).
    { unfold left_padding. rewrite Hlen, Hbw.
      replace (terminalWidth - (terminalWidth - 10 + 2)) with (4 * 2) by lia.
      rewrite Z.div_mul by lia. lia. }
    split; [lia|]. split; [done|].
    unfold pad_line. rewrite length_app, length_replicate. lia.
  - intros Hw. assert (Hbw : bw = 10) by (unfold bw, barWidth, barMargin; lia).
    lia.
Qed.

(** The theorem at three quarters of the bar of an 80-column terminal. *)
Lemma X4_witness :
  (0 <= 3 # 4)%Q ∧ (3 # 4 <= 1)%Q
  ∧ ∃ bar, barContent 80 (3 # 4) = Some bar ∧ (10%N ∉ bar).
Proof.
  assert (H0 : (0 <= 3 # 4)%Q) by (vm_compute; discriminate).
  assert (H1 : (3 # 4 <= 1)%Q) by (vm_compute; discriminate).
  split; [exact H0|]. split; [exact H1|].
  destruct (X4_bar_margins 80 (3 # 4) H0 H1) as (bar & Hbar & Hnl & _).
  exists bar. split; [exact Hbar|exact Hnl].
Defined.

Lemma digits_range (u : Decimal.uint) :
  Forall (λ c, (48 ≤ c ≤ 57)%N) (Js.digits u).
Proof. induction u; simpl; constructor; try done; lia. Qed.

Lemma String_digits (n : Z) :
  0 ≤ n → Forall (λ c, (48 ≤ c ≤ 57)%N) (Js.String n).
Proof.
  intros Hn. unfold Js.String. destruct n as [|p|p]; [| |lia];
    apply digits_range.
Qed.

Lemma has_glyph_range (c : N) : (48 ≤ c ≤ 58)%N → has_glyph c.
Proof.
  intros Hc.
  assert (c = 48 ∨ c = 49 ∨ c = 50 ∨ c = 51 ∨ c = 52 ∨ c = 53 ∨ c = 54
          ∨ c = 55 ∨ c = 56 ∨ c = 57 ∨ c = 58)%N as H by lia.
  unfold has_glyph.
  repeat (destruct H as [->|H]; [by eexists|]). subst. by eexists.
Qed.

Lemma padStart_two_digits (n : Z) :
  0 ≤ n ≤ 99 → length (Js.padStart (Js.String n) 2 48) = 2%nat.
Proof.
  intros Hn. replace n with (Z.of_nat (Z.to_nat n)) by lia.
  assert (Hk : (Z.to_nat n < 100)%nat) by lia.
  generalize dependent (Z.to_nat n). clear. intros k Hk.
  do 100 (destruct k as [|k]; [vm_compute; reflexivity|]). lia.
Qed.

Lemma timeString_glyphs (minutes seconds : Z) :
  0 ≤ minutes → 0 ≤ seconds → Forall has_glyph (timeString minutes seconds).
Proof.
  intros Hm Hs. unfold timeString, Js.padStart.
  change (Js.lit ":") with [58%N].
  repeat apply Forall_app_2.
  - apply Forall_replicate. by apply has_glyph_range.
  - eapply Forall_impl; [by apply String_digits|].
    intros c Hc. apply has_glyph_range. cbv beta in Hc. lia.
  - constructor; [by apply has_glyph_range|done].
  - apply Forall_replicate. by apply has_glyph_range.
  - eapply Forall_impl; [by apply String_digits|].
    intros c Hc. apply has_glyph_range. cbv beta in Hc. lia.
Qed.




(** ** [generateScaledTimerRows] at its edges *)

Lemma scaleAsciiCharacter_is_Some (charArt : list jsstring) (s : Z) :
  is_Some (scaleAsciiCharacter charArt s).
Proof.
  destruct (Z.le_gt_cases s 1).
  - rewrite scaleAsciiCharacter_small by done. by eexists.
  - rewrite scaleAsciiCharacter_scaled by lia. by eexists.
Qed.

(** X7. [generateScaledTimerRows] fails in two cases only: on the empty
    string (it reads the height of a first block that is not there) and on
    a negative scale (the separator is a negative repeat). A scale of 0 or
    1 is accepted and leaves the glyphs at their base size. *)
Theorem X7_generateScaledTimerRows_fails_iff (time : jsstring) (s : Z) :
  is_Some (generateScaledTimerRows time s) ↔ time ≠ [] ∧ 0 ≤ s.
Proof.
  unfold generateScaledTimerRows.
  destruct (mapM_is_Some_2 (λ char, scaleAsciiCharacter (baseArt char) s)
              (Js.chars time)) as [parts Hparts].
  { apply Forall_forall. intros char _. apply scaleAsciiCharacter_is_Some. }
  rewrite Hparts. cbn [mbind option_bind].
  apply mapM_Some_1, Forall2_length in Hparts.
  unfold Js.chars in Hparts. rewrite length_fmap in Hparts.
  destruct time as [|c time], parts as [|part parts]; simpl in Hparts; try lia.
  - split; [intros [? [=]]|intros [? _]; done].
  - cbn [head mbind option_bind].
    destruct (Z.lt_ge_cases s 0) as [Hneg|Hpos].
    + rewrite repeat_negative by lia. split; [intros [? [=]]|lia].
    + destruct (repeat_is_Some (Js.lit " ") (s * 2)) as [sp ->]; [lia|].
      split; [done|]. intros _. by eexists.
Qed.

(** X8. On a terminal of at least 35 columns and 9 rows, for a time below
    100 minutes, the digit block fits: it has [5 * scale] rows, which with
    the 4 rows kept for the bar and the spacing do not exceed the height,
    and every row is [33 * scale] units long, which does not exceed the
    width. *)
Theorem X8_digit_block_fits (terminalWidth terminalHeight minutes seconds : Z) :
  35 ≤ terminalWidth → 9 ≤ terminalHeight →
  0 ≤ minutes ≤ 99 → 0 ≤ seconds ≤ 59 →
  ∃ timerRows,
    generateScaledTimerRows (timeString minutes seconds)
      (scale terminalWidth terminalHeight) = Some timerRows
    ∧ Z.of_nat (length timerRows) = 5 * scale terminalWidth terminalHeight
    ∧ 5 * scale terminalWidth terminalHeight + 4 ≤ terminalHeight
    ∧ Forall (λ row : jsstring,
          Z.of_nat (length row) = 33 * scale terminalWidth terminalHeight)
        timerRows
    ∧ 33 * scale terminalWidth terminalHeight ≤ terminalWidth.
Proof.
  intros Hw Hh Hm Hs.
  pose proof (scale_min terminalWidth terminalHeight) as Hscale.
  assert (Hv : 5 * scale terminalWidth terminalHeight + 4 ≤ terminalHeight
               ∧ 35 * scale terminalWidth terminalHeight ≤ terminalWidth).
  { unfold scale, verticalScale, horizontalScale in *.
    pose proof (Z.div_mod (terminalHeight - 4) 5 ltac:(lia)).
    pose proof (Z.mod_pos_bound (terminalHeight - 4) 5 ltac:(lia)).
    pose proof (Z.div_mod terminalWidth 35 ltac:(lia)).
    pose proof (Z.mod_pos_bound terminalWidth 35 ltac:(lia)).
    lia. }
  assert (Hlen : length (timeString minutes seconds) = 5%nat).
  { unfold timeString. change (Js.lit ":") with [58%N].
    rewrite !length_app, !padStart_two_digits by lia. done. }
  eexists. split.
  { apply generateScaledTimerRows_rows; [apply timeString_nonempty|done]. }
  split; [rewrite length_fmap, length_seq; lia|].
  split; [lia|]. split; [|lia].
  apply Forall_fmap, Forall_forall. intros i Hi%elem_of_seq. simpl.
  rewrite (length_join_uniform _ (5 * Z.to_nat (scale terminalWidth terminalHeight)))
    by (apply blocks_row; lia).
  unfold blocks. rewrite !length_fmap, length_replicate, Hlen. lia.
Qed.

(** The theorem at the default terminal, 24 minutes and 59 seconds. *)
Lemma X8_witness :
  35 ≤ 80 ∧ 9 ≤ 24 ∧ 0 ≤ 24 ≤ 99 ∧ 0 ≤ 59 ≤ 59
  ∧ ∃ timerRows,
      generateScaledTimerRows (timeString 24 59) (scale 80 24) = Some timerRows
      ∧ Z.of_nat (length timerRows) = 5 * scale 80 24.
Proof.
  assert (Hw : 35 ≤ 80) by lia. assert (Hh : 9 ≤ 24) by lia.
  assert (Hm : 0 ≤ 24 ≤ 99) by lia. assert (Hs : 0 ≤ 59 ≤ 59) by lia.
  split; [exact Hw|]. split; [exact Hh|]. split; [exact Hm|]. split; [exact Hs|].
  destruct (X8_digit_block_fits 80 24 24 59 Hw Hh Hm Hs)
    as (timerRows & Hrows & Hlen & _).
  exists timerRows. split; [exact Hrows|exact Hlen].
Defined.

(** ** The bar over time *)

Lemma progress_of_mono (total t t' : Z) :
  0 < total → t' ≤ t → (progress_of total t <= progress_of total t')%Q.
Proof.
  intros Ht Hle. unfold progress_of.
  destruct (Z.ltb_spec 0 total); [|lia].
  unfold Qdiv. apply Qmult_le_compat_r.
  - rewrite <- Zle_Qle. lia.
  - apply Qinv_le_0_compat. change (inject_Z 0 <= inject_Z total)%Q.
    rewrite <- Zle_Qle. lia.
Qed.

Lemma progress_of_start (total : Z) :
  0 < total → (progress_of total total == 0)%Q.
Proof.
  intros Ht. unfold progress_of. destruct (Z.ltb_spec 0 total); [|lia].
  rewrite Z.sub_diag. unfold Qdiv. apply Qmult_0_l.
Qed.

Lemma progress_of_end (total : Z) :
  0 < total → (progress_of total 0 == 1)%Q.
Proof.
  intros Ht. unfold progress_of. destruct (Z.ltb_spec 0 total); [|lia].
  rewrite Z.sub_0_r. apply Qmult_inv_r.
  intros E. unfold Qeq, inject_Z in E. simpl in E. lia.
Qed.

(** X9. At a fixed bar width the filled count never goes back as the
    remaining time runs down: less time left gives at least as many filled
    cells. It is 0 when the whole duration is left and the full bar width
    when nothing is left. *)
Theorem X9_bar_never_recedes (bw total t t' : Z) :
  0 ≤ bw → 0 < total → t' ≤ t →
  filledWidth bw (progress_of total t) ≤ filledWidth bw (progress_of total t')
  ∧ filledWidth bw (progress_of total total) = 0
  ∧ filledWidth bw (progress_of total 0) = bw.
Proof.
  intros Hbw Ht Hle. unfold filledWidth. split; [|split].
  - apply round_mono. rewrite !(Qmult_comm (inject_Z bw)).
    apply Qmult_le_compat_r; [by apply progress_of_mono|].
    change (inject_Z 0 <= inject_Z bw)%Q. rewrite <- Zle_Qle. lia.
  - rewrite (progress_of_start total Ht), Qmult_0_r. apply (round_half 0).
  - rewrite (progress_of_end total Ht), Qmult_1_r. apply round_half.
Qed.

(** The theorem at a bar of 70 cells, a minute, 30 and 29 seconds left. *)
Lemma X9_witness :
  0 ≤ 70 ∧ 0 < 60 ∧ 29 ≤ 30
  ∧ filledWidth 70 (progress_of 60 30) ≤ filledWidth 70 (progress_of 60 29).
Proof.
  assert (Hbw : 0 ≤ 70) by lia. assert (Ht : 0 < 60) by lia.
  assert (Hle : 29 ≤ 30) by lia.
  split; [exact Hbw|]. split; [exact Ht|]. split; [exact Hle|].
  exact (proj1 (X9_bar_never_recedes 70 60 30 29 Hbw Ht Hle)).
Defined.

(** ** How the timer ends, and what the screen shows meanwhile *)

Lemma running_not_pending (p : process) : running p → pending p → False.
Proof. intros (_ & H & _) (H' & _). congruence. Qed.

Lemma deliver_ended_well (w0 : list jsstring) (p : process) (ev : event) :
  shape p →
  ended_well w0 p ∧ (status p = None → pending p → written p = w0 ∧ drawn p = []) →
  ended_well w0 (deliver timer p ev)
  ∧ (status (deliver timer p ev) = None → pending (deliver timer p ev) →
     written (deliver timer p ev) = w0 ∧ drawn (deliver timer p ev) = []).
Proof.
  intros [Hok Hsh] [Hend Hpend].
  destruct (status p) as [st|] eqn:Hst.
  { rewrite deliver_ended by congruence. split; [done|]. intros E. congruence. }
  destruct (Hsh eq_refl) as [Hp|Hrun].
  - pose proof Hp as (Htp & Hti & Hsl & Hrl & Hl).
    destruct (Hpend eq_refl Hp) as [Hw Hd].
    destruct ev as [| |c r|].
    + destruct (onTimeout_running p) as (frame & _ & Hr & _).
      { unfold starting. destruct Hok. repeat split; try done. }
      split.
      * unfold ended_well. by destruct Hr as (-> & _).
      * intros _ Hp'. by destruct (running_not_pending _ Hr Hp').
    + unfold deliver. rewrite Hst, Hti. split; [done|]. by intros _ _.
    + unfold deliver. rewrite Hst.
      replace (resizeListener (set_size c r p)) with false by (by destruct p).
      destruct p as [? ? w tp ti sl rl st dm ts tl dr].
      unfold ended_well. simpl in *. subst. done.
    + unfold deliver. rewrite Hst, Hsl.
      destruct p as [? ? w tp ti sl rl st dm ts tl dr].
      unfold ended_well. simpl in *. split; [done|]. intros [=].
  - pose proof Hrun as (_ & Htp & Hti & Hsl & Hrl).
    destruct ev as [| |c r|].
    + unfold deliver. rewrite Hst, Htp. split; [done|].
      intros _ Hp'. by destruct (running_not_pending _ Hrun Hp').
    + destruct (Z.lt_ge_cases 0 (timeLeftInSeconds p)) as [Hpos|Hzero].
      * destruct (onInterval_counts p Hrun Hok Hpos) as (frame & _ & Hr & _).
        split.
        -- unfold ended_well. by destruct Hr as (-> & _).
        -- intros _ Hp'. by destruct (running_not_pending _ Hr Hp').
      * rewrite onInterval_completes by done.
        destruct Hok as [_ [Hl _]].
        destruct p as [? ? w tp ti sl rl st dm ts tl dr].
        unfold ended_well. simpl in *. split; [|intros [=]].
        split; [done|]. exists w. right. rewrite <- app_assoc. split; [done|lia].
    + destruct (onResize_redraws p c r Hrun Hok) as (frame & _ & ->).
      destruct p as [? ? w tp ti sl rl st dm ts tl dr].
      unfold ended_well, running, pending in *. simpl in *. subst.
      split; [done|]. intros _ (? & _). done.
    + rewrite onSIGINT_exits by done.
      destruct p as [? ? w tp ti sl rl st dm ts tl dr].
      unfold ended_well. simpl in *. split; [|intros [=]].
      split; [done|]. exists w. left. by rewrite <- app_assoc.
Qed.

(** X10. However the events fall, the timer never dies of an uncaught
    exception. If it has exited, the code is 0 and its last two writes are
    the show-cursor sequence and a final message: the cancellation message,
    or the completion message with the counter at 0. If the interrupt
    killed it, that was before the timeout callback ran: nothing was drawn
    and nothing written beyond the lines of [main], so the cursor was never
    hidden. *)
Theorem X10_timer_ends_well (args0 : option jsstring)
    (parsed c r : option Z) (evs : list event) :
  status (run timer (launch args0 parsed c r) evs) ≠ Some UncaughtException
  ∧ (∀ code, status (run timer (launch args0 parsed c r) evs)
             = Some (ExitCode code) →
       code = 0
       ∧ ∃ before,
           written (run timer (launch args0 parsed c r) evs)
           = before ++ [SHOW_CURSOR; CANCELLED]
           ∨ (written (run timer (launch args0 parsed c r) evs)
              = before ++ [SHOW_CURSOR; TIMES_UP]
              ∧ timeLeftInSeconds (run timer (launch args0 parsed c r) evs) = 0))
  ∧ (status (run timer (launch args0 parsed c r) evs) = Some KilledBySignal →
       written (run timer (launch args0 parsed c r) evs)
       = written (launch args0 parsed c r)
       ∧ drawn (run timer (launch args0 parsed c r) evs) = []).
Proof.
  destruct (launch_starting args0 parsed c r) as [Hp Hdr].
  set (p0 := launch args0 parsed c r) in *.
  assert (H : shape (run timer p0 evs)
              ∧ ended_well (written p0) (run timer p0 evs)
              ∧ (status (run timer p0 evs) = None → pending (run timer p0 evs) →
                 written (run timer p0 evs) = written p0
                 ∧ drawn (run timer p0 evs) = [])).
  { induction evs as [|ev evs IH] using rev_ind.
    - cbn [run foldl]. split; [by apply starting_shape|]. split; [|done].
      unfold ended_well. by destruct Hp as (-> & _).
    - destruct IH as (Hsh & Hend).
      rewrite run_snoc. split; [by apply deliver_shape|].
      by apply deliver_ended_well. }
  destruct H as (_ & Hend & _). unfold ended_well in Hend.
  destruct (status (run timer p0 evs)) as [[code| |]|]; [|done| |].
  - split; [done|]. split; [|done]. by intros ? [= <-].
  - split; [done|]. split; [done|]. by intros _.
  - done.
Qed.

Lemma frame_of_ext (p q : process) :
  columns q = columns p → rows q = rows p →
  timeLeftInSeconds q = timeLeftInSeconds p → totalSeconds q = totalSeconds p →
  frame_of q = frame_of p.
Proof. intros Hc Hr Hl Ht. unfold frame_of. by rewrite Hc, Hr, Hl, Ht. Qed.

Lemma deliver_display_current (p : process) (ev : event) :
  shape p → (running p → display_current p) →
  running (deliver timer p ev) → display_current (deliver timer p ev).
Proof.
  intros [Hok Hsh] Hcur.
  destruct (status p) as [st|] eqn:Hst.
  { rewrite deliver_ended by congruence. done. }
  destruct (Hsh eq_refl) as [Hp|Hrun].
  - pose proof Hp as (Htp & Hti & Hsl & Hrl & Hl).
    destruct ev as [| |c r|].
    + destruct (onTimeout_running p)
        as (frame & Hf & _ & Hw & _ & Htl & Htot & Hc & Hr).
      { unfold starting. destruct Hok. repeat split; try done. }
      intros _. exists (written p ++ [HIDE_CURSOR]), frame. split.
      * by rewrite (frame_of_ext p).
      * by rewrite Hw, <- app_assoc.
    + unfold deliver. rewrite Hst, Hti.
      intros Hr. by destruct (running_not_pending _ Hr Hp).
    + unfold deliver. rewrite Hst.
      replace (resizeListener (set_size c r p)) with false by (by destruct p).
      intros (_ & Hr & _). destruct p. simpl in *. congruence.
    + unfold deliver. rewrite Hst, Hsl. intros (Hr & _). by destruct p.
  - pose proof Hrun as (_ & Htp & Hti & Hsl & Hrl).
    destruct ev as [| |c r|].
    + unfold deliver. rewrite Hst, Htp. done.
    + destruct (Z.lt_ge_cases 0 (timeLeftInSeconds p)) as [Hpos|Hzero].
      * destruct (onInterval_counts p Hrun Hok Hpos)
          as (frame & Hf & _ & Hw & _ & Htl & Htot & Hc & Hr).
        intros _. exists (written p), frame. split; [|done].
        rewrite <- Hf. apply frame_of_ext; by destruct p.
      * rewrite onInterval_completes by done. intros (Hr & _). by destruct p.
    + destruct (onResize_redraws p c r Hrun Hok) as (frame & Hf & ->).
      intros _. exists (written p), frame. split.
      * rewrite <- Hf. apply frame_of_ext; by destruct p.
      * destruct p. simpl. by rewrite <- app_assoc.
    + rewrite onSIGINT_exits by done. intros (Hr & _). by destruct p.
Qed.

(** X11. While the timer runs the screen is up to date: the last two
    writes are the clear-screen sequence and the frame of the present
    remaining time for the present size of the terminal, whatever ticks and
    resizes came before. *)
Theorem X11_display_is_current (args0 : option jsstring)
    (parsed c r : option Z) (evs : list event) :
  running (run timer (launch args0 parsed c r) evs) →
  display_current (run timer (launch args0 parsed c r) evs).
Proof.
  destruct (launch_starting args0 parsed c r) as [Hp _].
  set (p0 := launch args0 parsed c r) in *.
  induction evs as [|ev evs IH] using rev_ind.
  - intros (_ & Hr & _). destruct Hp as (_ & Hr' & _). simpl in Hr. congruence.
  - rewrite run_snoc. apply deliver_display_current; [|done].
    by apply run_shape, starting_shape.
Qed.

(** The theorem at the one-minute timer after the timeout, two periods and
    a resize. *)
Lemma X11_witness :
  running (run timer (launch (Some (Js.lit "1")) (Some 1) (Some 80) (Some 24))
             [TimeoutFires; IntervalFires; IntervalFires; Resize 120 40])
  ∧ display_current
      (run timer (launch (Some (Js.lit "1")) (Some 1) (Some 80) (Some 24))
         [TimeoutFires; IntervalFires; IntervalFires; Resize 120 40]).
Proof.
  assert (H : running
    (run timer (launch (Some (Js.lit "1")) (Some 1) (Some 80) (Some 24))
       [TimeoutFires; IntervalFires; IntervalFires; Resize 120 40]))
    by (vm_compute; repeat split; reflexivity).
  split; [exact H|].
  exact (X11_display_is_current (Some (Js.lit "1")) (Some 1) (Some 80) (Some 24)
           [TimeoutFires; IntervalFires; IntervalFires; Resize 120 40] H).
Defined.




(** ** The older programs *)

Lemma bar_of_40 (progress : Q) :
  (0 <= progress)%Q → (progress <= 1)%Q →
  Js.repeat (Js.lit "█") (Js.round (inject_Z 40 * progress))
  = Some (replicate (Z.to_nat (Js.round (40 * progress))) 9608%N)
  ∧ Js.repeat (Js.lit "░") (40 - Js.round (inject_Z 40 * progress))
    = Some (replicate (Z.to_nat (40 - Js.round (40 * progress))) 9617%N).
Proof.
  intros H0 H1.
  pose proof (filledWidth_bounds 40 progress ltac:(lia) H0 H1) as Hfw.
  unfold filledWidth in Hfw.
  change (Js.lit "█") with [9608%N]. change (Js.lit "░") with [9617%N].
  rewrite !repeat_unit by lia. done.
Qed.

Lemma older_progress_range (total timeLeft : Z) :
  0 < total → 0 ≤ timeLeft ≤ total →
  (0 <= inject_Z (total - timeLeft) / inject_Z total)%Q
  ∧ (inject_Z (total - timeLeft) / inject_Z total <= 1)%Q.
Proof.
  intros Ht Hl. pose proof (progress_of_range total timeLeft Ht Hl) as H.
  unfold progress_of in H. by destruct (Z.ltb_spec 0 total); [|lia].
Qed.








Lemma IndexJs_rows_step (acc : list jsstring) (ascii_char : list jsstring)
    (k : nat) :
  five_by_five ascii_char → length acc = 5%nat →
  Forall (λ row : jsstring, length row = k) acc →
  Forall (λ row : jsstring, length row = (k + 6)%nat)
    (imap (λ (i : nat) (row : jsstring),
        row ++ default (Js.lit "undefined") (ascii_char !! i) ++ Js.lit " ") acc).
Proof.
  intros [Hlen Hrows] Hacc Hk. apply Forall_lookup_2. intros i x.
  rewrite list_lookup_imap. destruct (acc !! i) as [row|] eqn:Hrow; [|done].
  intros [= <-].
  apply lookup_lt_Some in Hrow as Hi. rewrite Hacc in Hi.
  destruct (lookup_lt_is_Some_2 ascii_char i) as [g Hg]; [lia|].
  rewrite Hg. simpl. rewrite !length_app.
  rewrite (Forall_lookup_1 _ _ _ _ Hk Hrow).
  rewrite (Forall_lookup_1 _ _ _ _ Hrows Hg).
  change (length (Js.lit " ")) with 1%nat. lia.
Qed.

Lemma IndexJs_timerRows_uniform (time : jsstring) :
  length (IndexJs.timerRows time) = 5%nat
  ∧ Forall (λ row : jsstring,
        length row
        = (6 * length (filter (λ c, is_Some (ASCII_NUMBERS !! c)) time))%nat)
      (IndexJs.timerRows time).
Proof.
  unfold IndexJs.timerRows. change IndexJs.charHeight with 5%nat.
  assert (H : ∀ (acc : list jsstring) (k : nat),
    length acc = 5%nat → Forall (λ row : jsstring, length row = k) acc →
    length (foldl (λ rows char,
        match ASCII_NUMBERS !! char with
        | Some ascii_char =>
            imap (λ (i : nat) (row : jsstring),
                row ++ default (Js.lit "undefined") (ascii_char !! i) ++ Js.lit " ")
              rows
        | None => rows
        end) acc time) = 5%nat
    ∧ Forall (λ row : jsstring,
          length row
          = (k + 6 * length (filter (λ c, is_Some (ASCII_NUMBERS !! c)) time))%nat)
        (foldl (λ rows char,
        match ASCII_NUMBERS !! char with
        | Some ascii_char =>
            imap (λ (i : nat) (row : jsstring),
                row ++ default (Js.lit "undefined") (ascii_char !! i) ++ Js.lit " ")
              rows
        | None => rows
        end) acc time)).
  { induction time as [|c time IH]; intros acc k Hacc Hk.
    - simpl. split; [done|]. eapply Forall_impl; [exact Hk|].
      intros row ->. lia.
    - rewrite filter_cons. cbn [foldl].
      destruct (ASCII_NUMBERS !! c) as [a|] eqn:Ha.
      + rewrite decide_True by (by eexists).
        destruct (IH (imap (λ (i : nat) (row : jsstring),
            row ++ default (Js.lit "undefined") (a !! i) ++ Js.lit " ") acc)
            (k + 6)%nat) as [Hl Hr].
        * by rewrite length_imap.
        * apply IndexJs_rows_step; [by eapply ASCII_NUMBERS_shape|done|done].
        * split; [done|]. eapply Forall_impl; [exact Hr|].
          intros row ->. simpl. lia.
      + rewrite decide_False by (by intros [? ?]). by apply IH. }
  destruct (H (replicate 5 []) 0%nat) as [Hl Hr].
  - by rewrite length_replicate.
  - by apply Forall_replicate.
  - done.
Qed.

(** X14. The loop of [index.js] (and of the first program of [part_001])
    builds 5 rows of one length whatever the string: 6 units for each
    character that has a glyph (its 5 cells and one space), nothing for a
    character that has none. *)
Theorem X14_IndexJs_rows_shape (time : jsstring) :
  length (IndexJs.timerRows time) = 5%nat
  ∧ Forall (λ row : jsstring,
        length row
        = (6 * length (filter (λ c, is_Some (ASCII_NUMBERS !! c)) time))%nat)
      (IndexJs.timerRows time).
Proof. apply IndexJs_timerRows_uniform. Qed.

Lemma Part000_drawProgressBar_writes (p : process) (progress : Q)
    (minutes seconds : Z) :
  (0 <= progress)%Q → (progress <= 1)%Q →
  Part000.drawProgressBar progress minutes seconds p
  = (Return (),
     push_written (status_line progress minutes seconds)
       (push_drawn (progress, minutes, seconds) p)).
Proof.
  intros H0 H1. destruct (bar_of_40 progress H0 H1) as [Hf He].
  destruct p as [c r w tp ti sl rl st dm ts tl dr].
  unfold Part000.drawProgressBar. io_eval. rewrite Hf. cbn. rewrite He. cbn.
  unfold modify, status_line. change (Js.lit "[") with [91%N].
  change (Js.lit "] ") with [93%N; 32%N]. cbn.
  by rewrite <- ?app_assoc.
Qed.

Lemma Part000_launch_ticking (args0 : option jsstring) (parsed c r : option Z) :
  ticking (Part000.launch args0 parsed c r)
  ∧ timeLeftInSeconds (Part000.launch args0 parsed c r)
    = totalSeconds (Part000.launch args0 parsed c r).
Proof.
  unfold Part000.launch, Part000.main, boot.
  destruct parsed as [n|]; [destruct (Z.leb_spec n 0)|];
    destruct args0 as [raw|]; io_eval;
    rewrite Part000_drawProgressBar_writes by (vm_compute; discriminate);
    unfold ticking; cbn; repeat split; lia.
Qed.

Lemma Part000_onInterval_step (p : process) :
  0 < totalSeconds p → 1 ≤ timeLeftInSeconds p ≤ totalSeconds p →
  Part000.onInterval p
  = let call := older_call (totalSeconds p) (timeLeftInSeconds p - 1) in
    let q := push_written (status_line call.1.1 call.1.2 call.2)
               (push_drawn call (set_timeLeft (timeLeftInSeconds p - 1) p)) in
    if timeLeftInSeconds p - 1 <=? 0
    then (Exit 0, push_written Part000.TIMES_UP (set_timerInterval false q))
    else (Return (), q).
Proof.
  intros Ht Hl.
  destruct (older_progress_range (totalSeconds p) (timeLeftInSeconds p - 1))
    as [H0 H1]; [done|lia|].
  destruct p as [c r w tp ti sl rl st dm ts tl dr].
  cbn [totalSeconds timeLeftInSeconds] in *.
  unfold Part000.onInterval, older_call. io_eval.
  rewrite (Part000_drawProgressBar_writes _ _ _ _ H0 H1). cbn.
  by destruct (tl - 1 <=? 0).
Qed.

Lemma Part000_tick (p : process) :
  ticking p →
  (2 ≤ timeLeftInSeconds p →
     ticking (deliver Part000.timer p IntervalFires)
     ∧ timeLeftInSeconds (deliver Part000.timer p IntervalFires)
       = timeLeftInSeconds p - 1
     ∧ totalSeconds (deliver Part000.timer p IntervalFires) = totalSeconds p)
  ∧ (timeLeftInSeconds p = 1 →
     status (deliver Part000.timer p IntervalFires) = Some (ExitCode 0)
     ∧ timeLeftInSeconds (deliver Part000.timer p IntervalFires) = 0
     ∧ timerInterval (deliver Part000.timer p IntervalFires) = false
     ∧ written (deliver Part000.timer p IntervalFires)
       = written p
         ++ [status_line (older_call (totalSeconds p) 0).1.1 0 0;
             Part000.TIMES_UP]).
Proof.
  intros (Hst & Hti & Hsl & Htp & Hrl & Hl).
  unfold deliver. rewrite Hst, Hti. cbn [Part000.timer interval_callback].
  rewrite Part000_onInterval_step by lia.
  destruct p as [c r w tp ti sl rl st dm ts tl dr].
  cbn [status timeoutPending timerInterval sigintListener resizeListener
       totalSeconds timeLeftInSeconds written] in *. subst. cbv zeta.
  split.
  - intros H2. destruct (Z.leb_spec (tl - 1) 0); [lia|].
    unfold ticking. cbn. repeat split; lia.
  - intros ->. cbn. rewrite <- !app_assoc. done.
Qed.

Lemma Part000_deliver_alive (p : process) (ev : event) :
  ticking p → status (deliver Part000.timer p ev) = None →
  ticking (deliver Part000.timer p ev)
  ∧ totalSeconds (deliver Part000.timer p ev) = totalSeconds p.
Proof.
  intros Hp. pose proof Hp as (Hst & Hti & Hsl & Htp & Hrl & Hl).
  destruct ev as [| |c r|].
  - unfold deliver. by rewrite Hst, Htp.
  - destruct (Part000_tick p Hp) as [Hstep Hlast].
    destruct (Z.le_gt_cases 2 (timeLeftInSeconds p)) as [H2|H1].
    + destruct (Hstep H2) as (Hr & _ & Htot). done.
    + destruct Hlast as (Hst' & _); [lia|]. congruence.
  - unfold deliver. rewrite Hst.
    replace (resizeListener (set_size c r p)) with false by (by destruct p).
    destruct p as [? ? w tp ti sl rl st dm ts tl dr].
    unfold ticking in *. by simpl in *.
  - unfold deliver. rewrite Hst, Hsl. by destruct p.
Qed.

Lemma Part000_run_alive (p : process) (evs : list event) :
  ticking p → status (run Part000.timer p evs) = None →
  ticking (run Part000.timer p evs).
Proof.
  revert p. induction evs as [|ev evs IH]; intros p Hp Halive; [done|].
  simpl in *.
  destruct (status (deliver Part000.timer p ev)) as [st|] eqn:Hst.
  { rewrite run_ended in Halive by congruence. congruence. }
  destruct (Part000_deliver_alive p ev Hp Hst). by apply IH.
Qed.

(** X15. In [part_000] the SIGINT listener is registered by [main] itself,
    so an interrupt is handled from the start: the process is alive right
    after [main], and whenever it is alive, before the first tick as well
    as later, an interrupt writes a newline and the cancellation line, exits
    with status 0 and leaves the counter as it was. *)
Theorem X15_Part000_interrupt_always_handled (args0 : option jsstring)
    (parsed c r : option Z) (evs : list event) :
  status (Part000.launch args0 parsed c r) = None
  ∧ (status (run Part000.timer (Part000.launch args0 parsed c r) evs) = None →
     status (run Part000.timer (Part000.launch args0 parsed c r) (evs ++ [SIGINT]))
     = Some (ExitCode 0)
     ∧ written (run Part000.timer (Part000.launch args0 parsed c r)
                  (evs ++ [SIGINT]))
       = written (run Part000.timer (Part000.launch args0 parsed c r) evs)
         ++ [NL; Js.lit "Timer cancelled. Goodbye!" ++ NL]
     ∧ timeLeftInSeconds (run Part000.timer (Part000.launch args0 parsed c r)
                            (evs ++ [SIGINT]))
       = timeLeftInSeconds
           (run Part000.timer (Part000.launch args0 parsed c r) evs)).
Proof.
  destruct (Part000_launch_ticking args0 parsed c r) as [Hp _].
  split; [apply Hp|]. intros Halive.
  destruct (Part000_run_alive _ evs Hp Halive) as (Hst & _ & Hsl & _).
  rewrite run_snoc. unfold deliver. rewrite Hst, Hsl.
  cbn [Part000.timer sigint_callback].
  destruct (run Part000.timer (Part000.launch args0 parsed c r) evs).
  unfold Part000.onSIGINT. io_eval. by rewrite <- app_assoc.
Qed.



Lemma has_glyph_not_newline (c : N) : has_glyph c → c ≠ 10%N.
Proof. intros [a Ha] ->. vm_compute in Ha. discriminate. Qed.

(** X17. For a progress within [0, 1] and a time below 100 minutes,
    [drawProgressBar] writes one string and nothing else: it starts with a
    carriage return, holds no newline and is always 60 units long, so each
    status line covers the one before it on the same terminal line. *)
Theorem X17_Part000_status_line (p : process) (progress : Q)
    (minutes seconds : Z) :
  (0 <= progress)%Q → (progress <= 1)%Q →
  0 ≤ minutes ≤ 99 → 0 ≤ seconds ≤ 59 →
  Part000.drawProgressBar progress minutes seconds p
  = (Return (),
     push_written (status_line progress minutes seconds)
       (push_drawn (progress, minutes, seconds) p))
  ∧ head (status_line progress minutes seconds) = Some 13%N
  ∧ length (status_line progress minutes seconds) = 60%nat
  ∧ 10%N ∉ status_line progress minutes seconds.
Proof.
  intros H0 H1 Hm Hs.
  split; [by apply Part000_drawProgressBar_writes|].
  pose proof (filledWidth_bounds 40 progress ltac:(lia) H0 H1) as Hfw.
  unfold filledWidth in Hfw. change (inject_Z 40) with 40%Q in Hfw.
  unfold status_line. split; [done|]. split.
  - rewrite !length_app, !length_replicate.
    assert (Hlen : length (timeString minutes seconds) = 5%nat).
    { unfold timeString. change (Js.lit ":") with [58%N].
      rewrite !length_app, !padStart_two_digits by lia. done. }
    rewrite Hlen. change (length (Js.lit " remaining ")) with 11%nat.
    simpl length. lia.
  - assert (H : Forall (λ c, c ≠ 10%N)
      ([13%N; 91%N] ++ replicate (Z.to_nat (Js.round (40 * progress))) 9608%N
        ++ replicate (Z.to_nat (40 - Js.round (40 * progress))) 9617%N
        ++ [93%N; 32%N] ++ timeString minutes seconds ++ Js.lit " remaining ")).
    { apply Forall_app_2; [by repeat constructor|].
      apply Forall_app_2; [by apply Forall_replicate|].
      apply Forall_app_2; [by apply Forall_replicate|].
      apply Forall_app_2; [by repeat constructor|].
      apply Forall_app_2.
      - eapply Forall_impl; [apply timeString_glyphs; lia|].
        apply has_glyph_not_newline.
      - vm_compute. by repeat constructor. }
    rewrite Forall_forall in H. intros Hin. by apply (H _ Hin).
Qed.

(** The theorem at half of a 25-minute timer. *)
Lemma X17_witness :
  (0 <= 1 # 2)%Q ∧ (1 # 2 <= 1)%Q ∧ 0 ≤ 12 ≤ 99 ∧ 0 ≤ 30 ≤ 59
  ∧ length (status_line (1 # 2) 12 30) = 60%nat.
Proof.
  assert (H0 : (0 <= 1 # 2)%Q) by (vm_compute; discriminate).
  assert (H1 : (1 # 2 <= 1)%Q) by (vm_compute; discriminate).
  assert (Hm : 0 ≤ 12 ≤ 99) by lia. assert (Hs : 0 ≤ 30 ≤ 59) by lia.
  split; [exact H0|]. split; [exact H1|]. split; [exact Hm|]. split; [exact Hs|].
  exact (proj1 (proj2 (proj2
           (X17_Part000_status_line one_minute (1 # 2) 12 30 H0 H1 Hm Hs)))).
Defined.

Lemma repeat_unit_Some (c : N) (n : Z) (x : jsstring) :
  Js.repeat [c] n = Some x → 0 ≤ n ∧ x = replicate (Z.to_nat n) c.
Proof.
  destruct (Z.lt_ge_cases n 0) as [Hn|Hn].
  - by rewrite repeat_negative.
  - rewrite repeat_unit by done. by intros [= <-].
Qed.

Lemma barContent_Some (terminalWidth : Z) (progress : Q) (bar : jsstring) :
  barContent terminalWidth progress = Some bar → 10%N ∉ bar.
Proof.
  unfold barContent. cbv zeta.
  change (Js.lit "█") with [9608%N]. change (Js.lit "░") with [9617%N].
  destruct (Js.repeat [9608%N] _) as [f|] eqn:Hf; [|done].
  cbn [mbind option_bind].
  destruct (Js.repeat [9617%N] _) as [e|] eqn:He; [|done].
  cbn [mbind option_bind]. intros [= <-].
  apply repeat_unit_Some in Hf as [_ ->]. apply repeat_unit_Some in He as [_ ->].
  apply bar_no_newline.
Qed.

(** X18. The first program of [part_001] centres by hand what the last one
    centres with [centerContent], to the same effect: its frame is the bar
    centred as a text, an empty line, and its digit rows centred as lines,
    on every terminal width and for every input, failing exactly when the
    bar fails. *)
Theorem X18_Unscaled_centres_like_centerContent (terminalWidth : Z)
    (progress : Q) (minutes seconds : Z) :
  Unscaled.fullDisplay terminalWidth progress minutes seconds
  = (bar ← barContent terminalWidth progress;
     centeredBar ← centerContent (Text bar) terminalWidth;
     centeredTimer ← centerContent
                       (Lines (IndexJs.timerRows (timeString minutes seconds)))
                       terminalWidth;
     Some (centeredBar ++ NL ++ NL ++ centeredTimer)).
Proof.
  unfold Unscaled.fullDisplay.
  destruct (barContent terminalWidth progress) as [bar|] eqn:Hbar; [|done].
  cbn [mbind option_bind].
  change (centerContent (Text bar) terminalWidth)
    with (centerContent (Lines (Js.split 10 bar)) terminalWidth).
  rewrite split_no_separator by (by eapply barContent_Some).
  rewrite !centerContent_lines. cbn [mbind option_bind].
  change (Js.lit " ") with [32%N]. rewrite repeat_unit by lia.
  cbn [mbind option_bind].
  destruct (IndexJs_timerRows_uniform (timeString minutes seconds)) as [Hlen Hrows].
  set (rows := IndexJs.timerRows (timeString minutes seconds)) in *.
  set (k := (6 * length (filter (λ c, is_Some (ASCII_NUMBERS !! c))
                  (timeString minutes seconds)))%nat) in *.
  assert (Hwidth : match rows !! 0%nat with
                   | Some (c :: row) => Z.of_nat (length (c :: row))
                   | _ => 0
                   end = Z.of_nat k).
  { destruct rows as [|r0 rows']; [done|].
    apply Forall_cons in Hrows as [Hr0 _]. simpl lookup.
    destruct r0; simpl in *; lia. }
  rewrite Hwidth. rewrite repeat_unit by lia. cbn [mbind option_bind].
  f_equal.
  change (Js.join NL (Some <$> (pad_line terminalWidth <$> [bar])))
    with (pad_line terminalWidth bar).
  unfold pad_line at 1, left_padding at 1. rewrite <- !app_assoc.
  do 6 f_equal.
  apply Forall_fmap_ext_1. eapply Forall_impl; [exact Hrows|].
  intros row Hrow. unfold pad_line, left_padding. by rewrite Hrow.
Qed.

(** ** The lines of the frame *)

Lemma split_app_separator (l s : jsstring) :
  10%N ∉ l → Js.split 10 (l ++ 10%N :: s) = l :: Js.split 10 s.
Proof.
  induction l as [|c l IH]; intros Hl.
  - simpl. done.
  - assert (Hc : c ≠ 10%N) by (intros ->; apply Hl; by left).
    assert (Hl' : 10%N ∉ l) by (intros ?; apply Hl; by right).
    cbn [app Js.split]. destruct (N.eqb_spec c 10); [done|].
    by rewrite IH.
Qed.

Lemma split_join (lines : list jsstring) :
  lines ≠ [] → Forall (λ line : jsstring, 10%N ∉ line) lines →
  Js.split 10 (Js.join NL (Some <$> lines)) = lines.
Proof.
  intros Hne Hlines. induction Hlines as [|l rest Hl Hrest IH]; [done|].
  destruct rest as [|l2 rest].
  - simpl. by apply split_no_separator.
  - change (Js.join NL (Some <$> l :: l2 :: rest))
      with (l ++ 10%N :: Js.join NL (Some <$> l2 :: rest)).
    rewrite split_app_separator by done. by rewrite IH.
Qed.

Lemma elem_of_join (sep : jsstring) (parts : list (option jsstring)) (c : N) :
  c ∈ Js.join sep parts → c ∈ sep ∨ ∃ part, Some part ∈ parts ∧ c ∈ part.
Proof.
  induction parts as [|p parts IH]; [by intros ?%elem_of_nil|].
  assert (Hp : c ∈ default [] p → ∃ part, Some part ∈ p :: parts ∧ c ∈ part).
  { destruct p as [part|]; simpl; [|by intros ?%elem_of_nil].
    intros ?. exists part. split; [by left|done]. }
  destruct parts as [|p2 parts].
  - simpl. intros H. right. by apply Hp.
  - change (Js.join sep (p :: p2 :: parts))
      with (default [] p ++ sep ++ Js.join sep (p2 :: parts)).
    rewrite !elem_of_app. intros [H|[H|H]]; [right; by apply Hp|by left|].
    destruct (IH H) as [?|(part & Hin & Hc)]; [by left|].
    right. exists part. split; [by right|done].
Qed.

Lemma ASCII_NUMBERS_no_newline (c : N) (charArt : list jsstring) :
  ASCII_NUMBERS !! c = Some charArt →
  Forall (λ row : jsstring, Forall (λ u, u ≠ 10%N) row) charArt.
Proof.
  intros H. apply elem_of_list_to_map_2 in H.
  repeat (apply elem_of_cons in H as [H|H];
          [injection H as _ ->; apply (bool_decide_unpack _); vm_compute;
           exact I|]).
  by apply elem_of_nil in H.
Qed.

Lemma baseArt_no_newline (char : jsstring) :
  Forall (λ row : jsstring, Forall (λ u, u ≠ 10%N) row) (baseArt char).
Proof.
  assert (Hcolon : ∃ a, ASCII_NUMBERS !! 58%N = Some a) by (by eexists).
  destruct Hcolon as [colon Hcolon].
  unfold baseArt. rewrite Hcolon. cbn [default].
  destruct char as [|c [|? ?]]; try by eapply ASCII_NUMBERS_no_newline.
  destruct (ASCII_NUMBERS !! c) as [a|] eqn:Ha; cbn [default];
    by eapply ASCII_NUMBERS_no_newline.
Qed.

Lemma blocks_no_newline (time : jsstring) (n i : nat) (part row : jsstring) :
  Some row ∈ (λ part : list jsstring, part !! i) <$> blocks time n →
  10%N ∉ row.
Proof.
  intros (block & Hrow & Hblock)%list_elem_of_fmap.
  apply list_elem_of_fmap in Hblock as (c & -> & _).
  symmetry in Hrow. apply list_elem_of_lookup_2 in Hrow.
  unfold scaled in Hrow. apply elem_of_stretch in Hrow.
  apply list_elem_of_fmap in Hrow as (base & -> & Hbase).
  intros Hin%elem_of_stretch.
  pose proof (baseArt_no_newline [c]) as Hart.
  rewrite Forall_forall in Hart. specialize (Hart _ Hbase).
  rewrite Forall_forall in Hart. by apply (Hart _ Hin).
Qed.

Lemma pad_line_no_newline (terminalWidth : Z) (line : jsstring) :
  10%N ∉ line → 10%N ∉ pad_line terminalWidth line.
Proof.
  intros Hl. unfold pad_line. rewrite elem_of_app, elem_of_replicate.
  intros [[? _]|?]; done.
Qed.

(** X19. On a terminal of at least 35 columns and 9 rows, for a progress
    within [0, 1] and a time below 100 minutes, the frame fits the screen:
    it has [5 * scale + 2] lines (the bar, an empty line and the digit
    rows), which leaves at least two rows of the terminal free, and no line
    is longer than the terminal is wide. *)
Theorem X19_frame_fits_terminal (terminalWidth terminalHeight : Z)
    (progress : Q) (minutes seconds : Z) :
  35 ≤ terminalWidth → 9 ≤ terminalHeight →
  (0 <= progress)%Q → (progress <= 1)%Q →
  0 ≤ minutes ≤ 99 → 0 ≤ seconds ≤ 59 →
  ∃ frame,
    fullDisplay terminalWidth terminalHeight progress minutes seconds = Some frame
    ∧ Z.of_nat (length (Js.split 10 frame))
      = 5 * scale terminalWidth terminalHeight + 2
    ∧ Z.of_nat (length (Js.split 10 frame)) ≤ terminalHeight - 2
    ∧ Forall (λ line : jsstring, Z.of_nat (length line) ≤ terminalWidth)
        (Js.split 10 frame).
Proof.
  intros Hw Hh H0 H1 Hm Hs.
  pose proof (scale_min terminalWidth terminalHeight) as Hscale.
  set (s := scale terminalWidth terminalHeight) in *.
  assert (Hv : 5 * s + 4 ≤ terminalHeight ∧ 35 * s ≤ terminalWidth).
  { unfold s, scale, verticalScale, horizontalScale in *.
    pose proof (Z.div_mod (terminalHeight - 4) 5 ltac:(lia)).
    pose proof (Z.mod_pos_bound (terminalHeight - 4) 5 ltac:(lia)).
    pose proof (Z.div_mod terminalWidth 35 ltac:(lia)).
    pose proof (Z.mod_pos_bound terminalWidth 35 ltac:(lia)).
    lia. }
  assert (Htime : length (timeString minutes seconds) = 5%nat).
  { unfold timeString. change (Js.lit ":") with [58%N].
    rewrite !length_app, !padStart_two_digits by lia. done. }
  (* the bar *)
  pose proof (barContent_in_range terminalWidth progress H0 H1) as Hbar.
  cbv zeta in Hbar.
  set (bar := [91%N] ++ _) in Hbar.
  assert (Hbarnl : 10%N ∉ bar) by apply bar_no_newline.
  assert (Hbarlen : Z.of_nat (length bar) = terminalWidth - 8).
  { pose proof (filledWidth_bounds (barWidth terminalWidth) progress
                  ltac:(pose proof (barWidth_min terminalWidth); lia) H0 H1).
    unfold bar. rewrite !length_app, !length_replicate. simpl.
    unfold emptyWidth. unfold barWidth, barMargin in *. lia. }
  (* the rows *)
  set (rows := (λ i, Js.join (replicate (2 * Z.to_nat s) 32%N)
                  ((λ part : list jsstring, part !! i)
                     <$> blocks (timeString minutes seconds) (Z.to_nat s)))
               <$> seq 0 (5 * Z.to_nat s)).
  assert (Hrows : generateScaledTimerRows (timeString minutes seconds) s
                  = Some rows)
    by (apply generateScaledTimerRows_rows; [apply timeString_nonempty|done]).
  assert (Hrowlen : Forall (λ row : jsstring, Z.of_nat (length row) = 33 * s) rows).
  { apply Forall_fmap, Forall_forall. intros i Hi%elem_of_seq. simpl.
    rewrite (length_join_uniform _ (5 * Z.to_nat s)) by (apply blocks_row; lia).
    unfold blocks. rewrite !length_fmap, length_replicate, Htime. lia. }
  assert (Hrownl : Forall (λ row : jsstring, 10%N ∉ row) rows).
  { apply Forall_fmap, Forall_forall. intros i _. simpl.
    intros [Hsep|(part & Hpart & Hin)]%elem_of_join.
    - by apply elem_of_replicate in Hsep as [? _].
    - by eapply (blocks_no_newline _ _ i part part). }
  (* the frame *)
  exists (Js.join NL (Some <$> (pad_line terminalWidth bar :: []
                                  :: (pad_line terminalWidth <$> rows)))).
  assert (Hne : pad_line terminalWidth <$> rows ≠ []).
  { unfold rows. intros E. apply (f_equal length) in E.
    rewrite !length_fmap, length_seq in E. simpl in E. lia. }
  split.
  { unfold fullDisplay. rewrite Hbar. cbn [mbind option_bind].
    change (centerContent (Text bar) terminalWidth)
      with (centerContent (Lines (Js.split 10 bar)) terminalWidth).
    rewrite split_no_separator by done.
    rewrite centerContent_lines. cbn [mbind option_bind].
    fold s. rewrite Hrows. cbn [mbind option_bind].
    rewrite centerContent_lines. cbn [mbind option_bind]. f_equal.
    destruct (pad_line terminalWidth <$> rows) as [|r0 rest] eqn:E; [done|].
    rewrite !fmap_cons. cbn [fmap list_fmap Js.join default].
    reflexivity. }
  rewrite split_join.
  - cbn [length]. rewrite length_fmap. unfold rows at 1 2.
    rewrite length_fmap, length_seq.
    split; [lia|]. split; [lia|].
    constructor.
    { unfold pad_line, left_padding. rewrite length_app, length_replicate, Hbarlen.
      replace (terminalWidth - (terminalWidth - 8)) with (4 * 2) by lia.
      rewrite Z.div_mul by lia. lia. }
    constructor; [simpl; lia|].
    apply Forall_fmap. eapply Forall_impl; [exact Hrowlen|].
    intros row Hrow. simpl. cbv beta in Hrow. unfold pad_line, left_padding.
    rewrite length_app, length_replicate, Hrow.
    pose proof (Z.div_mod (terminalWidth - 33 * s) 2 ltac:(lia)).
    pose proof (Z.mod_pos_bound (terminalWidth - 33 * s) 2 ltac:(lia)).
    lia.
  - done.
  - constructor; [by apply pad_line_no_newline|].
    constructor; [by intros ?%elem_of_nil|].
    apply Forall_fmap. eapply Forall_impl; [exact Hrownl|].
    intros row Hrow. by apply pad_line_no_newline.
Qed.

(** The theorem at the default terminal, a third of 25 minutes gone. *)
Lemma X19_witness :
  35 ≤ 80 ∧ 9 ≤ 24 ∧ (0 <= 1 # 3)%Q ∧ (1 # 3 <= 1)%Q
  ∧ 0 ≤ 16 ≤ 99 ∧ 0 ≤ 40 ≤ 59
  ∧ ∃ frame, fullDisplay 80 24 (1 # 3) 16 40 = Some frame
             ∧ Z.of_nat (length (Js.split 10 frame)) ≤ 24 - 2.
Proof.
  assert (Hw : 35 ≤ 80) by lia. assert (Hh : 9 ≤ 24) by lia.
  assert (H0 : (0 <= 1 # 3)%Q) by (vm_compute; discriminate).
  assert (H1 : (1 # 3 <= 1)%Q) by (vm_compute; discriminate).
  assert (Hm : 0 ≤ 16 ≤ 99) by lia. assert (Hs : 0 ≤ 40 ≤ 59) by lia.
  split; [exact Hw|]. split; [exact Hh|]. split; [exact H0|]. split; [exact H1|].
  split; [exact Hm|]. split; [exact Hs|].
  destruct (X19_frame_fits_terminal 80 24 (1 # 3) 16 40 Hw Hh H0 H1 Hm Hs)
    as (frame & Hframe & _ & Hlines & _).
  exists frame. split; [exact Hframe|exact Hlines].
Defined.
